(** * Dusty efficiency linter (tools/dusty/index.js): model and properties

    The linter parses a JavaScript file with acorn, walks the resulting
    ESTree object graph with a hand-written recursive walker, and reports
    every heavy dependency that is imported at function depth 0.

    The parser, the file system and the console are outside the file; they
    appear here as section variables.  Everything else is translated from
    [index.js] function by function and keeps its names. *)

From Stdlib Require Import List String Ascii ZArith Bool Lia DecimalString.
Import ListNotations.
Local Open Scope string_scope.
Local Open Scope Z_scope.

(** ** JavaScript values

    An AST is a plain object graph.  [VObj] lists the own enumerable
    properties of an object in the order [for (key in node)] enumerates them
    (keys are pairwise distinct in a JS object; [lookup] reads the first).
    [VArr] is a dense array.  Numbers are the integers the parser produces
    (positions, lengths); strings are compared and sliced as sequences of
    characters. *)

Unset Elimination Schemes.
Inductive value : Type :=
| VUndef
| VNull
| VBool (b : bool)
| VNum (n : Z)
| VStr (s : string)
| VArr (elems : list value)
| VObj (fields : list (string * value)).
Set Elimination Schemes.

(** Exceptions that reach a [catch] of the program. *)
Inductive exn : Type :=
| SyntaxError (msg : string)
| TypeError
| IOError (msg : string).

Fixpoint lookup (k : string) (fs : list (string * value)) : value :=
  match fs with
  | [] => VUndef
  | (k', v) :: rest => if String.eqb k k' then v else lookup k rest
  end.

(** [v.k].  Reading a property of [undefined] or [null] throws a TypeError
    ([None]).  Of an array and of a string the program reads only [length],
    index [0] and named properties that arrays and strings do not have. *)
Definition getProp (v : value) (k : string) : option value :=
  match v with
  | VUndef | VNull => None
  | VBool _ | VNum _ => Some VUndef
  | VStr s =>
      if String.eqb k "length" then Some (VNum (Z.of_nat (String.length s)))
      else if String.eqb k "0" then
        Some (match s with EmptyString => VUndef | String c _ => VStr (String c EmptyString) end)
      else Some VUndef
  | VArr es =>
      if String.eqb k "length" then Some (VNum (Z.of_nat (List.length es)))
      else if String.eqb k "0" then Some (nth 0 es VUndef)
      else Some VUndef
  | VObj fs => Some (lookup k fs)
  end.

(** [v === 'lit'] *)
Definition strictEqStr (v : value) (lit : string) : bool :=
  match v with
  | VStr s => String.eqb s lit
  | _ => false
  end.

(** [typeof v === 'string'] *)
Definition isString (v : value) : bool :=
  match v with VStr _ => true | _ => false end.

(** [typeof v === 'object'] together with [v] being truthy: [null] is
    excluded by the truthiness test that always accompanies it. *)
Definition isObject (v : value) : bool :=
  match v with VArr _ | VObj _ => true | _ => false end.

(** ToBoolean *)
Definition truthy (v : value) : bool :=
  match v with
  | VUndef | VNull => false
  | VBool b => b
  | VNum n => negb (n =? 0)
  | VStr s => negb (String.eqb s "")
  | VArr _ | VObj _ => true
  end.

(** ** Dependency matcher *)

Definition HEAVY_DEPENDENCIES : list string :=
  [ "webpack"; "rollup"; "vite"; "esbuild"; "parcel";
    "jest"; "mocha"; "jasmine"; "cypress"; "playwright";
    "babel"; "@babel/core"; "typescript"; "ts-node";
    "eslint"; "prettier"; "jshint";
    "lodash"; "moment"; "axios"; "request";
    "react"; "vue"; "angular"; "express";
    "nodemon"; "pm2"; "forever" ].

(** [Array.prototype.includes] on an array of strings. *)
Definition includes (l : list string) (s : string) : bool :=
  existsb (String.eqb s) l.

(** [moduleName.startsWith(p)] *)
Definition startsWith (moduleName p : string) : bool := String.prefix p moduleName.

(** The callback of [HEAVY_DEPENDENCIES.some] in [isHeavyDependency]. *)
Definition matchesDep (moduleName dep : string) : bool :=
  startsWith moduleName (dep ++ "/")
  || startsWith moduleName ("@" ++ dep ++ "/")
  || (startsWith dep "@" && startsWith moduleName (dep ++ "/")).

(** [isHeavyDependency] on a string argument, over the list [heavy] that
    stands for the module constant. *)
Definition isHeavy (heavy : list string) (moduleName : string) : bool :=
  if includes heavy moduleName then true
  else existsb (matchesDep moduleName) heavy.

(** [isHeavyDependency] on any value.  A non-string is never included; the
    first callback of [some] then calls [moduleName.startsWith], which is
    not a function, and throws.  Over an empty list no callback runs. *)
Definition isHeavyDependency (heavy : list string) (moduleName : value) : option bool :=
  match moduleName with
  | VStr s => Some (isHeavy heavy s)
  | _ => match heavy with [] => Some false | _ :: _ => None end
  end.

(** ** The walk of [checkLazyImportHeavyDeps]

    The closure variables [currentDepth], [topLevelImports] and
    [lazyImports] form the state of one walk.  A JS [Set] iterates in
    insertion order and ignores a second [add] of the same element: a list
    without duplicates, extended at the end.  [depthLog] is a ghost field:
    every value [currentDepth] has held, latest first. *)

Record walk_state : Type := mkState {
  currentDepth : Z;
  topLevelImports : list string;
  lazyImports : list string;
  depthLog : list Z
}.

Definition setAdd (s : string) (l : list string) : list string :=
  if includes l s then l else l ++ [s].

(** A computation either returns a value or throws, in a final state. *)
Inductive res (A : Type) : Type :=
| Val (a : A) (st : walk_state)
| Exc (st : walk_state).
Arguments Val {A} a st.
Arguments Exc {A} st.

Definition M (A : Type) : Type := walk_state -> res A.

Definition ret {A} (a : A) : M A := fun st => Val a st.

Definition bind {A B} (m : M A) (k : A -> M B) : M B :=
  fun st => match m st with
            | Val a st' => k a st'
            | Exc st' => Exc st'
            end.

(** An expression that may throw a TypeError and does not touch the state. *)
Definition eval {A} (o : option A) : M A :=
  fun st => match o with Some a => Val a st | None => Exc st end.

Definition get : M walk_state := fun st => Val st st.

Notation "x <- m ;; k" := (bind m (fun x => k))
  (at level 61, m at next level, right associativity).
Notation "m ;; k" := (bind m (fun _ => k))
  (at level 61, right associativity).

Definition when (b : bool) (m : M unit) : M unit := if b then m else ret tt.

Definition addTopLevel (s : string) : M unit :=
  fun st => Val tt (mkState (currentDepth st) (setAdd s (topLevelImports st))
                            (lazyImports st) (depthLog st)).

Definition addLazy (s : string) : M unit :=
  fun st => Val tt (mkState (currentDepth st) (topLevelImports st)
                            (setAdd s (lazyImports st)) (depthLog st)).

(** [currentDepth++] and [currentDepth--] *)
Definition setDepth (d : Z) : M unit :=
  fun st => Val tt (mkState d (topLevelImports st) (lazyImports st) (d :: depthLog st)).

Definition incrDepth : M unit := fun st => setDepth (currentDepth st + 1) st.
Definition decrDepth : M unit := fun st => setDepth (currentDepth st - 1) st.

(** The specifier of a value already known to be heavy or to be a string. *)
Definition addString (add : string -> M unit) (v : value) : M unit :=
  match v with VStr s => add s | _ => ret tt end.

(** The state in which a computation ends, returning or throwing. *)
Definition final {A} (r : res A) : walk_state :=
  match r with Val _ st => st | Exc st => st end.

Definition returns {A} (r : res A) : Prop :=
  match r with Val _ _ => True | Exc _ => False end.

(** A computation started in [st] is balanced when every depth it has
    logged is at least the depth it started with, and it ends, if it
    returns, at the depth it started with. *)
Definition balanced {A} (st : walk_state) (r : res A) : Prop :=
  (exists new, depthLog (final r) = (new ++ depthLog st)%list /\
               Forall (fun d => currentDepth st <= d) new) /\
  (returns r -> currentDepth (final r) = currentDepth st).

Section Walker.

(** The list behind [isHeavyDependency]: the program uses the constant
    [HEAVY_DEPENDENCIES]. *)
Variable heavy : list string.

(** [v > 0] for an operand that is a string, an array or an object: the
    engine converts it with ToPrimitive and ToNumber (and throws when the
    conversion finds no primitive).  It is needed only for a [length]
    property that is not a number, and is left abstract. *)
Variable coerceGtZero : value -> option bool.

(** [v > 0] *)
Definition gtZero (v : value) : option bool :=
  match v with
  | VNum n => Some (0 <? n)
  | VUndef => Some false
  | VNull => Some false
  | VBool b => Some b
  | VStr _ | VArr _ | VObj _ => coerceGtZero v
  end.

(** Lines 81-86. *)
Definition visitImportDeclaration (node : value) : M unit :=
  ty <- eval (getProp node "type") ;;
  st <- get ;;
  if strictEqStr ty "ImportDeclaration" && (currentDepth st =? 0) then
    src <- eval (getProp node "source") ;;
    source <- eval (getProp src "value") ;;
    h <- eval (isHeavyDependency heavy source) ;;
    when h (addString addTopLevel source)
  else ret tt.

(** Lines 90-103. *)
Definition visitRequire (node : value) : M unit :=
  callee <- eval (getProp node "callee") ;;
  name <- eval (getProp callee "name") ;;
  if strictEqStr name "require" then
    args <- eval (getProp node "arguments") ;;
    len <- eval (getProp args "length") ;;
    pos <- eval (gtZero len) ;;
    if pos then
      arg <- eval (getProp args "0") ;;
      aty <- eval (getProp arg "type") ;;
      if strictEqStr aty "Literal" then
        moduleName <- eval (getProp arg "value") ;;
        if isString moduleName then
          h <- eval (isHeavyDependency heavy moduleName) ;;
          st <- get ;;
          when h (if currentDepth st =? 0
                  then addString addTopLevel moduleName
                  else addString addLazy moduleName)
        else ret tt
      else ret tt
    else ret tt
  else ret tt.

(** Lines 105-114. *)
Definition visitDynamicImport (node : value) : M unit :=
  callee <- eval (getProp node "callee") ;;
  cty <- eval (getProp callee "type") ;;
  if strictEqStr cty "Import" then
    args <- eval (getProp node "arguments") ;;
    len <- eval (getProp args "length") ;;
    pos <- eval (gtZero len) ;;
    if pos then
      arg <- eval (getProp args "0") ;;
      aty <- eval (getProp arg "type") ;;
      if strictEqStr aty "Literal" then
        moduleName <- eval (getProp arg "value") ;;
        if isString moduleName then
          h <- eval (isHeavyDependency heavy moduleName) ;;
          when h (addString addLazy moduleName)
        else ret tt
      else ret tt
    else ret tt
  else ret tt.

(** Lines 88-115. *)
Definition visitCallExpression (node : value) : M unit :=
  ty <- eval (getProp node "type") ;;
  if strictEqStr ty "CallExpression" then
    visitRequire node ;; visitDynamicImport node
  else ret tt.

(** Lines 81-115: what visiting one node records. *)
Definition classify (node : value) : M unit :=
  visitImportDeclaration node ;; visitCallExpression node.

(** Lines 118-120. *)
Definition isFunctionNode (node : value) : bool :=
  match getProp node "type" with
  | Some ty => strictEqStr ty "FunctionDeclaration"
               || strictEqStr ty "FunctionExpression"
               || strictEqStr ty "ArrowFunctionExpression"
  | None => false
  end.

(** [c && typeof c === 'object' && c.type] *)
Definition hasType (c : value) : bool :=
  isObject c && match getProp c "type" with Some ty => truthy ty | None => false end.

(** Lines 131-135: [child.forEach(...)] *)
Fixpoint forEach (walk : value -> M unit) (cs : list value) : M unit :=
  match cs with
  | [] => ret tt
  | c :: rest => when (hasType c) (walk c) ;; forEach walk rest
  end.

(** Lines 128-139: the body of the [for (key in node)] loop. *)
Definition visitChild (walk : value -> M unit) (child : value) : M unit :=
  match child with
  | VArr cs => forEach walk cs
  | VObj _ => when (hasType child) (walk child)
  | _ => ret tt
  end.

(** Lines 77-145. *)
Fixpoint walkNode (node : value) : M unit :=
  if negb (isObject node) then ret tt else
  classify node ;;
  when (isFunctionNode node) incrDepth ;;
  match node with
  | VObj fs =>
      (fix forIn (fs : list (string * value)) : M unit :=
         match fs with
         | [] => ret tt
         | (_, child) :: rest => visitChild walkNode child ;; forIn rest
         end) fs
  | VArr es =>
      (fix forIn (es : list value) : M unit :=
         match es with
         | [] => ret tt
         | child :: rest => visitChild walkNode child ;; forIn rest
         end) es
  | _ => ret tt
  end ;;
  when (isFunctionNode node) decrDepth.

End Walker.

(** ** Diagnostics and the linter object *)

Record diagnostic : Type := mkDiagnostic {
  file : string;
  rule : string;
  message : string;
  severity : string
}.

(** The object pushed at lines 151-156. *)
Definition report (filePath module : string) : diagnostic :=
  {| file := filePath;
     rule := "lazy-import-heavy-js-deps";
     message := "Heavy dependency '" ++ module ++
       "' should be lazily loaded to improve startup performance. Consider using dynamic import() or require() inside functions.";
     severity := "warning" |}.

Definition diagnostic_eq_dec (a b : diagnostic) : {a = b} + {a <> b}.
Proof. decide equality; apply string_dec. Defined.

(** A [console.warn] line: its fixed text and the exception it prints. *)
Inductive warning : Type :=
| UnableToParse (filePath : string) (e : exn)
| UnableToRead (filePath : string) (e : exn).

(** A [DustyLinter] with the console it writes to. *)
Record linter : Type := mkLinter {
  errors : list diagnostic;
  console : list warning
}.

(** Lines 41-43: [new DustyLinter()], with nothing logged yet. *)
Definition newLinter : linter := {| errors := []; console := [] |}.

Definition warn (w : warning) (l : linter) : linter :=
  {| errors := errors l; console := console l ++ [w] |}.

Inductive completion (A : Type) : Type :=
| Normal (a : A)
| Throw (e : exn).
Arguments Normal {A} a.
Arguments Throw {A} e.

Inductive sourceType : Type := module | script.

(** The options object handed to acorn's [parse]. *)
Record parseOptions : Type := mkOptions {
  ecmaVersion : Z;
  optSourceType : sourceType;
  allowImportExportEverywhere : bool;
  allowReturnOutsideFunction : bool
}.

(** Lines 47-52 and 58-62; a property that is not given is [false]. *)
Definition moduleOptions : parseOptions :=
  {| ecmaVersion := 2022; optSourceType := module;
     allowImportExportEverywhere := true; allowReturnOutsideFunction := true |}.

Definition scriptOptions : parseOptions :=
  {| ecmaVersion := 2022; optSourceType := script;
     allowImportExportEverywhere := false; allowReturnOutsideFunction := true |}.

Definition initialState : walk_state :=
  {| currentDepth := 0; topLevelImports := []; lazyImports := []; depthLog := [0] |}.

Section Linter.

Variable heavy : list string.
Variable coerceGtZero : value -> option bool.

(** acorn's [parse]: a tree, or a SyntaxError. *)
Variable parse : parseOptions -> string -> completion value.

(** [fs.readFileSync(file, 'utf8')] and [findJSFiles]. *)
Variable readFileSync : string -> completion string.
Variable findJSFiles : string -> list string.

(** Lines 70-158.  The walk may throw before anything is pushed. *)
Definition checkLazyImportHeavyDeps (ast : value) (filePath : string) (l : linter)
  : completion linter :=
  match walkNode heavy coerceGtZero ast initialState with
  | Val _ st =>
      Normal {| errors := errors l ++ map (report filePath) (topLevelImports st);
                console := console l |}
  | Exc _ => Throw TypeError
  end.

Definition parseAndCheck (opts : parseOptions) (filePath content : string) (l : linter)
  : completion linter :=
  match parse opts content with
  | Normal ast => checkLazyImportHeavyDeps ast filePath l
  | Throw e => Throw e
  end.

(** Lines 45-68. *)
Definition lint (filePath content : string) (l : linter) : linter :=
  match parseAndCheck moduleOptions filePath content l with
  | Normal l' => l'
  | Throw _ =>
      match parseAndCheck scriptOptions filePath content l with
      | Normal l' => l'
      | Throw e => warn (UnableToParse filePath e) l
      end
  end.

(** Lines 192-199: the body of [files.forEach]. *)
Definition lintFile (l : linter) (f : string) : linter :=
  match readFileSync f with
  | Normal content => lint f content l
  | Throw e => warn (UnableToRead f e) l
  end.

(** The diagnostics one file adds to the batch. *)
Definition fileDiagnostics (f : string) : list diagnostic :=
  errors (lintFile newLinter f).

(** Lines 185-221, without the printed report: the linter after the batch
    and the count that is returned. *)
Definition lintBatch (patterns : list string) : linter :=
  fold_left (fun l pattern => fold_left lintFile (findJSFiles pattern) l)
            patterns newLinter.

Definition lintFiles (patterns : list string) : Z :=
  Z.of_nat (List.length (errors (lintBatch patterns))).

End Linter.

(** ** The shape of a walk

    [walkTargets node] lists, in order, the values on which [walkNode node]
    calls itself: the typed objects among the property values of [node] and
    among the elements of its array-valued properties. *)

Definition childTargets (child : value) : list value :=
  match child with
  | VArr cs => filter hasType cs
  | VObj _ => if hasType child then [child] else []
  | _ => []
  end.

Definition walkTargets (node : value) : list value :=
  match node with
  | VObj fs => flat_map (fun kv => childTargets (snd kv)) fs
  | VArr es => flat_map childTargets es
  | _ => []
  end.

Fixpoint walkList (walk : value -> M unit) (ts : list value) : M unit :=
  match ts with
  | [] => ret tt
  | t :: rest => walk t ;; walkList walk rest
  end.

Fixpoint size (v : value) : nat :=
  match v with
  | VArr es => S (fold_right (fun e n => (size e + n)%nat) 0%nat es)
  | VObj fs => S (fold_right (fun kv n => (size (snd kv) + n)%nat) 0%nat fs)
  | _ => 1%nat
  end.

(** Function depth added by [node] to its descendants. *)
Definition bump (node : value) : Z := if isFunctionNode node then 1 else 0.

(** [reach d node e m]: a walk that enters [node] with [currentDepth = d]
    visits [m] with [currentDepth = e]. *)
Inductive reach : Z -> value -> Z -> value -> Prop :=
| reach_here : forall d node, isObject node = true -> reach d node d node
| reach_below : forall d node c e m,
    isObject node = true ->
    In c (walkTargets node) ->
    reach (d + bump node) c e m ->
    reach d node e m.

Section Sites.

Variable heavy : list string.
Variable coerceGtZero : value -> option bool.

(** [m] is a static import of [s]. *)
Definition importSite (m : value) (s : string) : Prop :=
  exists src,
    getProp m "type" = Some (VStr "ImportDeclaration") /\
    getProp m "source" = Some src /\
    getProp src "value" = Some (VStr s).

(** [m] is a call with at least one argument whose first argument is the
    string literal [s]. *)
Definition literalCall (m : value) (s : string) : Prop :=
  exists args len arg,
    getProp m "type" = Some (VStr "CallExpression") /\
    getProp m "arguments" = Some args /\
    getProp args "length" = Some len /\
    gtZero coerceGtZero len = Some true /\
    getProp args "0" = Some arg /\
    getProp arg "type" = Some (VStr "Literal") /\
    getProp arg "value" = Some (VStr s).

(** [m] is [require(s)] for a literal [s]. *)
Definition requireSite (m : value) (s : string) : Prop :=
  literalCall m s /\
  exists callee,
    getProp m "callee" = Some callee /\
    getProp callee "name" = Some (VStr "require").

(** [m] is a dynamic import of a literal [s]: the callee is the [Import]
    operator, which is not an identifier and has no name. *)
Definition dynamicImportSite (m : value) (s : string) : Prop :=
  literalCall m s /\
  exists callee name,
    getProp m "callee" = Some callee /\
    getProp callee "type" = Some (VStr "Import") /\
    getProp callee "name" = Some name /\
    strictEqStr name "require" = false.

(** The two forms the walk records as top-level at depth 0. *)
Definition topSite (m : value) (s : string) : Prop :=
  importSite m s \/ requireSite m s.

(** Some node below [c], met at depth 0 by a walk entering [c] at depth
    [d], is a static import or a [require] call of the heavy name [s]. *)
Definition topSiteBelow (d : Z) (c : value) (s : string) : Prop :=
  exists m, reach d c 0 m /\ topSite m s /\ isHeavy heavy s = true.

End Sites.

(** ** Trees of the shape acorn produces

    In an ESTree an [ImportDeclaration] has a [source] literal with a string
    [value]; a [CallExpression] has a [callee] node and an array of argument
    nodes. *)

Definition isNode (v : value) : bool :=
  match v with VObj _ => true | _ => false end.

Definition nodeOk (m : value) : bool :=
  match getProp m "type" with
  | Some (VStr ty) =>
      if String.eqb ty "ImportDeclaration" then
        match getProp m "source" with
        | Some (VObj src) => isString (lookup "value" src)
        | _ => false
        end
      else if String.eqb ty "CallExpression" then
        match getProp m "callee", getProp m "arguments" with
        | Some (VObj _), Some (VArr args) => forallb isNode args
        | _, _ => false
        end
      else true
  | _ => true
  end.

Fixpoint wellFormed (v : value) : bool :=
  match v with
  | VObj fs => nodeOk v && forallb (fun kv => wellFormed (snd kv)) fs
  | VArr es => forallb wellFormed es
  | _ => true
  end.

(** ** Sample trees, as acorn 8 builds them (positions left out) *)

Module Sample.

Definition Literal (s : string) : value :=
  VObj [("type", VStr "Literal"); ("value", VStr s); ("raw", VStr ("'" ++ s ++ "'"))].

Definition Identifier (name : string) : value :=
  VObj [("type", VStr "Identifier"); ("name", VStr name)].

Definition CallExpression (callee : value) (args : list value) : value :=
  VObj [("type", VStr "CallExpression"); ("callee", callee);
        ("arguments", VArr args); ("optional", VBool false)].

(** [require('s')] *)
Definition requireCall (s : string) : value :=
  CallExpression (Identifier "require") [Literal s].

(** [import('s')] as acorn parses it. *)
Definition ImportExpression (s : string) : value :=
  VObj [("type", VStr "ImportExpression"); ("source", Literal s)].

(** [import('s')] as a parser with a callee of type [Import] builds it. *)
Definition importCall (s : string) : value :=
  CallExpression (VObj [("type", VStr "Import")]) [Literal s].

Definition ExpressionStatement (e : value) : value :=
  VObj [("type", VStr "ExpressionStatement"); ("expression", e)].

(** [const name = init;] *)
Definition constDecl (name : string) (init : value) : value :=
  VObj [("type", VStr "VariableDeclaration");
        ("declarations",
         VArr [VObj [("type", VStr "VariableDeclarator");
                     ("id", Identifier name); ("init", init)]]);
        ("kind", VStr "const")].

(** [import name from 's';] *)
Definition ImportDeclaration (name s : string) : value :=
  VObj [("type", VStr "ImportDeclaration");
        ("specifiers",
         VArr [VObj [("type", VStr "ImportDefaultSpecifier");
                     ("local", Identifier name)]]);
        ("source", Literal s)].

(** [function name() { body }] *)
Definition FunctionDeclaration (name : string) (body : list value) : value :=
  VObj [("type", VStr "FunctionDeclaration"); ("id", Identifier name);
        ("expression", VBool false); ("generator", VBool false);
        ("async", VBool false); ("params", VArr []);
        ("body", VObj [("type", VStr "BlockStatement"); ("body", VArr body)])].

Definition ReturnStatement : value :=
  VObj [("type", VStr "ReturnStatement"); ("argument", VNull)].

Definition Program (body : list value) : value :=
  VObj [("type", VStr "Program"); ("body", VArr body); ("sourceType", VStr "module")].

(** [const webpack = require('webpack');
     function f() { const lodash = require('lodash'); }] *)
Definition topAndNested : value :=
  Program [constDecl "webpack" (requireCall "webpack");
           FunctionDeclaration "f" [constDecl "lodash" (requireCall "lodash")]].

(** [const webpack = require('webpack'); const _ = require('lodash');] *)
Definition webpackAndLodash : value :=
  Program [constDecl "webpack" (requireCall "webpack");
           constDecl "_" (requireCall "lodash")].

(** [function f() { const webpack = require('webpack'); }] *)
Definition nestedOnly : value :=
  Program [FunctionDeclaration "f" [constDecl "webpack" (requireCall "webpack")]].

(** [function f() { const webpack = require('webpack'); }
     const _ = require('lodash');] *)
Definition nestedWebpackTopLodash : value :=
  Program [FunctionDeclaration "f" [constDecl "webpack" (requireCall "webpack")];
           constDecl "_" (requireCall "lodash")].

(** [require('react'); require('react');] *)
Definition reactTwice : value :=
  Program [ExpressionStatement (requireCall "react");
           ExpressionStatement (requireCall "react")].

(** A coercion for the sample runs; no sample tree has a [length] that is
    not a number. *)
Definition noCoercion (_ : value) : option bool := Some false.

(** A stand-in parser for the sample runs: it knows three texts. *)
Definition sampleParse (_ : parseOptions) (content : string) : completion value :=
  if String.eqb content "const webpack = require('webpack');" then
    Normal (Program [constDecl "webpack" (requireCall "webpack")])
  else if String.eqb content "import _ from 'lodash';" then
    Normal (Program [ImportDeclaration "_" "lodash"])
  else Throw (SyntaxError "Unexpected token").

Definition sampleRead (f : string) : completion string :=
  if String.eqb f "a.js" then Normal "const webpack = require('webpack');"
  else if String.eqb f "b.js" then Normal "%%% not javascript"
  else if String.eqb f "c.js" then Normal "import _ from 'lodash';"
  else Throw (IOError "ENOENT").

End Sample.

(** ** The rest of the linter object *)

(** Lines 176-178. *)
Definition getErrors (l : linter) : list diagnostic := errors l.

(** Lines 180-182; the console keeps what was written to it. *)
Definition reset (l : linter) : linter := {| errors := []; console := console l |}.

(** ** File discovery

    [findJSFiles] reads the file system through [existsSync], [statSync]
    and [readdirSync].  The part of the file system below a path is a
    finite tree: what [statSync] finds at the path and, for a readable
    directory, the names [readdirSync] lists with what lies under each. *)

Unset Elimination Schemes.
Inductive fsEntry : Type :=
| File                                         (* [stat.isFile()] *)
| Dir (entries : list (string * fsEntry))      (* [stat.isDirectory()], readable *)
| UnreadableDir                                (* a directory on which [readdirSync] throws *)
| Special                                      (* neither: socket, fifo, device *)
| Broken.                                      (* [statSync] throws: dangling link, no access *)
Set Elimination Schemes.

(** [s.endsWith(suffix)] *)
Definition endsWith (s suffix : string) : bool :=
  (String.length suffix <=? String.length s)%nat &&
  String.eqb (substring (String.length s - String.length suffix)
                        (String.length suffix) s) suffix.

(** [entry.endsWith('.js') || entry.endsWith('.mjs')] *)
Definition isJSName (entry : string) : bool :=
  endsWith entry ".js" || endsWith entry ".mjs".

(** [!entry.startsWith('.') && entry !== 'node_modules'] *)
Definition isWalkedDir (entry : string) : bool :=
  negb (startsWith entry ".") && negb (String.eqb entry "node_modules").

Section Files.

(** [path.join] *)
Variable join : string -> string -> string.

(** What the pattern names, seen from the working directory.  [existsSync]
    is false for [None] and for [Some Broken]. *)
Variable resolve : string -> option fsEntry.

(** Lines 226-246.  [node] is what lies at [dir]; [files] is the array
    being filled.  A [statSync] that throws ends the loop over the entries,
    and the [catch] of this call returns what has been pushed so far. *)
Fixpoint walkDir (dir : string) (node : fsEntry) (files : list string) : list string :=
  match node with
  | Dir entries =>
      (fix forEachEntry (entries : list (string * fsEntry)) (files : list string)
         : list string :=
         match entries with
         | [] => files
         | (entry, child) :: rest =>
             let fullPath := join dir entry in
             match child with
             | Broken => files
             | Dir _ | UnreadableDir =>
                 if isWalkedDir entry
                 then forEachEntry rest (walkDir fullPath child files)
                 else forEachEntry rest files
             | File =>
                 if isJSName entry
                 then forEachEntry rest (files ++ [fullPath])%list
                 else forEachEntry rest files
             | Special => forEachEntry rest files
             end
         end) entries files
  | _ => files
  end.

(** Lines 223-258. *)
Definition findJSFiles (pattern : string) : list string :=
  match resolve pattern with
  | None | Some Broken => []
  | Some (Dir entries) => walkDir pattern (Dir entries) []
  | Some UnreadableDir => walkDir pattern UnreadableDir []
  | Some File => if isJSName pattern then [pattern] else []
  | Some Special => []
  end.

End Files.

(** ** The printed report and the command line *)

(** [`${n}`] for an array length. *)
Definition showLength (n : nat) : string := NilZero.string_of_uint (Nat.to_uint n).

(** Lines 208-212: the three lines printed for one diagnostic. *)
Definition reportEntry (error : diagnostic) : list string :=
  [ file error ++ ":";
    "  " ++ severity error ++ ": " ++ message error ++ " [" ++ rule error ++ "]";
    "" ].

(** Lines 204-218: what [lintFiles] writes with [console.log]. *)
Definition reportLines (errs : list diagnostic) : list string :=
  match errs with
  | [] => ["Dusty efficiency linter: No issues found."]
  | _ :: _ =>
      ([String (ascii_of_nat 10) "Dusty Efficiency Linter Results:";
        "================================="]
       ++ flat_map reportEntry errs
       ++ [("Found " ++ showLength (List.length errs) ++ " efficiency issues.")%string])%list
  end.

(** One run of the program: the lines of [console.log], the lines of
    [console.warn], and the exit code. *)
Record run : Type := mkRun {
  stdout : list string;
  stderr : list warning;
  exitCode : Z
}.

Section CommandLine.

Variable heavy : list string.
Variable coerceGtZero : value -> option bool.
Variable parse : parseOptions -> string -> completion value.
Variable readFileSync : string -> completion string.
Variable join : string -> string -> string.
Variable resolve : string -> option fsEntry.

(** Lines 261-272, for [args = process.argv.slice(2)]. *)
Definition cli (args : list string) : run :=
  match args with
  | [] =>
      {| stdout := ["Usage: node index.js <files-or-directories>";
                    "Example: node index.js lib/ test/ benchmark/"];
         stderr := [];
         exitCode := 1 |}
  | _ :: _ =>
      let l := lintBatch heavy coerceGtZero parse readFileSync (findJSFiles join resolve) args in
      let errorCount := lintFiles heavy coerceGtZero parse readFileSync
                                  (findJSFiles join resolve) args in
      {| stdout := reportLines (getErrors l);
         stderr := console l;
         exitCode := if 0 <? errorCount then 1 else 0 |}
  end.

End CommandLine.

(** ** A sample project directory *)

Module SampleFiles.

(** [path.join] on a directory path without trailing separator and a
    plain entry name. *)
Definition joinPath (dir entry : string) : string := dir ++ "/" ++ entry.

(** [lib/] with a hidden file, a dependency cache, a dangling link in a
    sub-directory and a directory that cannot be listed. *)
Definition lib : fsEntry :=
  Dir [ ("a.js", File);
        (".eslintrc.js", File);
        ("README.md", File);
        ("node_modules", Dir [("webpack.js", File)]);
        (".git", Dir [("hook.js", File)]);
        ("internal", Dir [("b.mjs", File); ("dangling", Broken); ("c.js", File)]);
        ("locked", UnreadableDir);
        ("z.js", File) ].

Definition sampleResolve (pattern : string) : option fsEntry :=
  if String.eqb pattern "lib" then Some lib
  else if String.eqb pattern "a.js" then Some File
  else if String.eqb pattern "c.js" then Some File
  else if String.eqb pattern "dusty.config.json" then Some File
  else None.

End SampleFiles.

(** [l'] is [l] with names appended that [l] does not hold. *)
Definition extendedBy (l l' : list string) : Prop :=
  exists ext, l' = (l ++ ext)%list /\ forall x, In x ext -> ~ In x l.

(** Both sets of [st] extend those of [st0]. *)
Definition grownFrom (st0 st : walk_state) : Prop :=
  extendedBy (topLevelImports st0) (topLevelImports st) /\
  extendedBy (lazyImports st0) (lazyImports st).

Fixpoint fsSize (node : fsEntry) : nat :=
  match node with
  | Dir entries => S (fold_right (fun kv n => (fsSize (snd kv) + n)%nat) 0%nat entries)
  | _ => 1%nat
  end.

(** Entries of a directory that [walkDir] passes over: directories it
    cannot list or does not enter, files with another extension, and what
    is neither file nor directory. *)
Definition passedOver (entry : string) (child : fsEntry) : bool :=
  match child with
  | UnreadableDir | Special => true
  | Dir _ => negb (isWalkedDir entry)
  | File => negb (isJSName entry)
  | Broken => false
  end.

(** [d] reports a heavy name in the file [f]. *)
Definition heavyReport (heavy : list string) (f : string) (d : diagnostic) : Prop :=
  exists s, d = report f s /\ isHeavy heavy s = true.

(** ** Files of a batch that are analysed *)



(** ** The walk on a bounded call stack

    [walkNode] is recursive, and every nested call takes a frame of the
    engine's call stack.  [walkNodeWithin frames] is the walk with room for
    [frames] nested calls below the caller: [None] when a call finds no
    frame left (the engine then throws a RangeError). *)

Fixpoint height (v : value) : nat :=
  match v with
  | VArr es => S (fold_right (fun e n => Nat.max (height e) n) 0%nat es)
  | VObj fs => S (fold_right (fun kv n => Nat.max (height (snd kv)) n) 0%nat fs)
  | _ => 1%nat
  end.

Fixpoint walkListWithin (walk : value -> walk_state -> option (res unit))
         (ts : list value) (st : walk_state) : option (res unit) :=
  match ts with
  | [] => Some (Val tt st)
  | t :: rest =>
      match walk t st with
      | None => None
      | Some (Exc st') => Some (Exc st')
      | Some (Val _ st') => walkListWithin walk rest st'
      end
  end.

Fixpoint walkNodeWithin (heavy : list string) (coerceGtZero : value -> option bool)
         (frames : nat) (node : value) (st : walk_state) : option (res unit) :=
  match frames with
  | O => None
  | S below =>
      if negb (isObject node) then Some (Val tt st) else
      match (classify heavy coerceGtZero node ;; when (isFunctionNode node) incrDepth) st with
      | Exc st' => Some (Exc st')
      | Val _ st1 =>
          match walkListWithin (walkNodeWithin heavy coerceGtZero below)
                               (walkTargets node) st1 with
          | None => None
          | Some (Exc st') => Some (Exc st')
          | Some (Val _ st2) => Some (when (isFunctionNode node) decrDepth st2)
          end
      end
  end.

(** [checkLazyImportHeavyDeps] on a call stack of [frames] frames. *)
Definition checkWithin (heavy : list string) (coerceGtZero : value -> option bool)
           (frames : nat) (ast : value) (filePath : string) (l : linter)
  : option (completion linter) :=
  match walkNodeWithin heavy coerceGtZero frames ast initialState with
  | None => None
  | Some (Val _ st) =>
      Some (Normal {| errors := errors l ++ map (report filePath) (topLevelImports st);
                      console := console l |})
  | Some (Exc _) => Some (Throw TypeError)
  end.

(** [f(x);] where the call node has lost its [callee]. *)
Definition calleelessCall : value :=
  Sample.Program
    [Sample.ExpressionStatement
       (VObj [("type", VStr "CallExpression"); ("arguments", VArr [Sample.Identifier "x"])])].

(** The matcher as the specification words it: the scoped-wrapping form is
    offered only for a name that does not itself start with [@]. *)
Definition isHeavySpec (s : string) (H : list string) : Prop :=
  In s H
  \/ (exists d rest, In d H /\ s = d ++ "/" ++ rest)
  \/ (exists d rest, In d H /\ startsWith d "@" = false /\ s = "@" ++ d ++ "/" ++ rest).

(** * Properties *)

(** ** Strings *)

Lemma append_assoc_str (a b c : string) : (a ++ b) ++ c = a ++ (b ++ c).
Proof.
  induction a as [|ch a IH]; simpl; [reflexivity | now rewrite IH].
Qed.

Lemma length_append_str (a b : string) :
  String.length (a ++ b) = (String.length a + String.length b)%nat.
Proof.
  induction a as [|ch a IH]; simpl; [reflexivity | now rewrite IH].
Qed.

Lemma append_cancel_r (a b c : string) : a ++ c = b ++ c -> a = b.
Proof.
  revert b; induction a as [|x a IH]; intros [|y b] H; simpl in *.
  - reflexivity.
  - apply (f_equal String.length) in H. simpl in H.
    rewrite length_append_str in H. lia.
  - apply (f_equal String.length) in H. simpl in H.
    rewrite length_append_str in H. lia.
  - inversion H; subst. f_equal. now apply IH.
Qed.

Lemma append_cancel_l (a b c : string) : a ++ b = a ++ c -> b = c.
Proof.
  induction a as [|x a IH]; simpl; intros H; [assumption|].
  inversion H. now apply IH.
Qed.

Lemma startsWith_iff (s p : string) :
  startsWith s p = true <-> exists rest, s = p ++ rest.
Proof.
  unfold startsWith. revert s.
  induction p as [|c p IH]; intros s; simpl.
  - split; [intros _; now exists s | intros _; now destruct s].
  - destruct s as [|c' s]; simpl.
    + split; [discriminate | intros [r Hr]; discriminate].
    + destruct (ascii_dec c c') as [->|Hne].
      * rewrite IH. split; intros [r Hr]; exists r.
        -- now rewrite Hr.
        -- now inversion Hr.
      * split; [discriminate | intros [r Hr]; inversion Hr; congruence].
Qed.

Lemma includes_iff (l : list string) (s : string) : includes l s = true <-> In s l.
Proof.
  unfold includes. rewrite existsb_exists. split.
  - intros [x [Hin Heq]]. apply String.eqb_eq in Heq. now subst.
  - intros Hin. exists s. split; [assumption | apply String.eqb_refl].
Qed.

Lemma matchesDep_iff (s dep : string) :
  matchesDep s dep = true <->
  (exists rest, s = dep ++ "/" ++ rest) \/ (exists rest, s = "@" ++ dep ++ "/" ++ rest).
Proof.
  unfold matchesDep.
  rewrite !orb_true_iff, andb_true_iff, !startsWith_iff.
  split.
  - intros [[[r Hr] | [r Hr]] | [_ [r Hr]]].
    + left. exists r. now rewrite Hr, append_assoc_str.
    + right. exists r. rewrite Hr. simpl. now rewrite append_assoc_str.
    + left. exists r. now rewrite Hr, append_assoc_str.
  - intros [[r Hr] | [r Hr]].
    + left; left. exists r. now rewrite Hr, append_assoc_str.
    + left; right. exists r. rewrite Hr. simpl. now rewrite append_assoc_str.
Qed.

(** ** Dependency matcher *)

(** C2, as the program has it: a specifier is heavy exactly when it is a
    listed name, or continues a listed name [d] after a [/], or continues
    [@d] after a [/], for any listed [d], scoped or not.  Matching stops at a
    path boundary: [webpackx] is not heavy for [webpack], while
    [webpack/lib/Foo] and [@webpack/cli] are, [@babel/core] is heavy for
    itself, and [@myorg/webpack] is not heavy for [webpack]. *)
Theorem isHeavy_characterisation :
  (forall (s : string) (H : list string),
      isHeavy H s = true <->
      In s H
      \/ (exists d rest, In d H /\ s = d ++ "/" ++ rest)
      \/ (exists d rest, In d H /\ s = "@" ++ d ++ "/" ++ rest))
  /\ isHeavy ["webpack"] "webpackx" = false
  /\ isHeavy ["webpack"] "webpack/lib/Foo" = true
  /\ isHeavy ["@babel/core"] "@babel/core" = true
  /\ isHeavy ["webpack"] "@webpack/cli" = true
  /\ isHeavy ["webpack"] "@myorg/webpack" = false.
Proof.
  split; [| repeat split; reflexivity].
  intros s H. unfold isHeavy.
  destruct (includes H s) eqn:Hinc.
  - split; [intros _; left; now apply includes_iff | reflexivity].
  - rewrite existsb_exists. split.
    + intros [d [Hd Hm]]. apply matchesDep_iff in Hm.
      destruct Hm as [[r Hr] | [r Hr]]; [right; left | right; right];
        exists d, r; auto.
    + intros [Hin | [[d [r [Hd Hr]]] | [d [r [Hd Hr]]]]].
      * apply includes_iff in Hin. congruence.
      * exists d. split; [assumption|]. apply matchesDep_iff. left. now exists r.
      * exists d. split; [assumption|]. apply matchesDep_iff. right. now exists r.
Qed.

(** The specification's wording of C2 fails twice: its own example
    [@myorg/webpack] is not heavy for [webpack], and a scoped name is
    wrapped too ([@@babel/core/x] is heavy for [@babel/core]) although the
    worded condition excludes it. *)
Lemma isHeavy_spec_wording_fails :
  isHeavy ["webpack"] "@myorg/webpack" = false
  /\ isHeavy ["@babel/core"] "@@babel/core/x" = true
  /\ ~ isHeavySpec "@@babel/core/x" ["@babel/core"].
Proof.
  split; [reflexivity|]. split; [reflexivity|].
  intros [Hin | [[d [r [Hd Hr]]] | [d [r [Hd [Hat Hr]]]]]].
  - simpl in Hin. destruct Hin as [Heq | []]. discriminate.
  - simpl in Hd. destruct Hd as [<- | []]. discriminate.
  - simpl in Hd. destruct Hd as [<- | []]. discriminate.
Qed.

(** ** The walk as a fold over [walkTargets] *)

Lemma bind_ext {A B} (m : M A) (k k' : A -> M B) (st : walk_state) :
  (forall a st', k a st' = k' a st') -> bind m k st = bind m k' st.
Proof.
  intros H. unfold bind. destruct (m st); [apply H | reflexivity].
Qed.

Lemma bind_ret_tt (m : M unit) (st : walk_state) : (m ;; ret tt) st = m st.
Proof.
  unfold bind, ret. destruct (m st) as [[] st'|st']; reflexivity.
Qed.

Lemma bind_assoc {A B C} (m : M A) (k : A -> M B) (h : B -> M C) (st : walk_state) :
  bind (bind m k) h st = bind m (fun a => bind (k a) h) st.
Proof.
  unfold bind. destruct (m st); reflexivity.
Qed.

Lemma walkList_app (walk : value -> M unit) (a b : list value) (st : walk_state) :
  walkList walk (a ++ b) st = (walkList walk a ;; walkList walk b) st.
Proof.
  revert st. induction a as [|t a IH]; intros st; simpl.
  - reflexivity.
  - rewrite bind_assoc. apply bind_ext. intros _ st'. apply IH.
Qed.

Lemma forEach_walkList (walk : value -> M unit) (cs : list value) (st : walk_state) :
  forEach walk cs st = walkList walk (filter hasType cs) st.
Proof.
  revert st. induction cs as [|c cs IH]; intros st; simpl.
  - reflexivity.
  - destruct (hasType c); simpl.
    + apply bind_ext. intros _ st'. apply IH.
    + unfold bind at 1. simpl. apply IH.
Qed.

Lemma visitChild_walkList (walk : value -> M unit) (child : value) (st : walk_state) :
  visitChild walk child st = walkList walk (childTargets child) st.
Proof.
  destruct child; simpl; try reflexivity.
  - apply forEach_walkList.
  - destruct (hasType (VObj fields)); simpl; [now rewrite bind_ret_tt | reflexivity].
Qed.

Lemma forIn_walkList {A} (walk : value -> M unit) (proj : A -> value)
      (loop : list A -> M unit) (xs : list A) (st : walk_state) :
  (forall st, loop [] st = ret tt st) ->
  (forall x rest st, loop (x :: rest) st = (visitChild walk (proj x) ;; loop rest) st) ->
  loop xs st = walkList walk (flat_map (fun x => childTargets (proj x)) xs) st.
Proof.
  intros Hnil Hcons. revert st.
  induction xs as [|x xs IH]; intros st; simpl.
  - apply Hnil.
  - rewrite Hcons, walkList_app.
    unfold bind. rewrite visitChild_walkList.
    destruct (walkList walk (childTargets (proj x)) st); [apply IH | reflexivity].
Qed.

(** ** Tactics for running the visit functions *)

Lemma strictEqStr_true (v : value) (lit : string) :
  strictEqStr v lit = true -> v = VStr lit.
Proof.
  destruct v; simpl; try discriminate. intros H. apply String.eqb_eq in H. now subst.
Qed.

Lemma isString_true (v : value) : isString v = true -> exists s, v = VStr s.
Proof.
  destruct v; simpl; try discriminate. intros _. now exists s.
Qed.

Lemma bind_eval {A B} (o : option A) (k : A -> M B) (st : walk_state) :
  bind (eval o) k st = match o with Some a => k a st | None => Exc st end.
Proof. unfold bind, eval. destruct o; reflexivity. Qed.

Lemma bind_get {B} (k : walk_state -> M B) (st : walk_state) :
  bind get k st = k st st.
Proof. reflexivity. Qed.

Lemma isHeavyDependency_true (heavy : list string) (v : value) :
  isHeavyDependency heavy v = Some true -> exists s, v = VStr s /\ isHeavy heavy s = true.
Proof.
  destruct v; simpl; try (destruct heavy; discriminate).
  intros H. exists s. split; [reflexivity | congruence].
Qed.

(** Symbolic execution of one visit function recorded in hypothesis [H]. *)
Ltac exec H :=
  repeat (cbv beta in H;
    first
      [ rewrite bind_eval in H
      | rewrite bind_get in H
      | match type of H with
        | context [match ?o with Some _ => _ | None => _ end] => destruct o eqn:?
        | context [if ?c then _ else _] => destruct c eqn:?
        end ]).

Ltac sites :=
  repeat match goal with
    | E : strictEqStr _ _ = true |- _ => apply strictEqStr_true in E; subst
    | E : isString _ = true |- _ => apply isString_true in E; destruct E as [? ->]
    | E : isHeavyDependency _ _ = Some true |- _ =>
        apply isHeavyDependency_true in E; destruct E as [? [? ?]]; subst
    | E : (_ && _)%bool = true |- _ => apply andb_true_iff in E; destruct E
    | E : (_ =? _) = true |- _ => apply Z.eqb_eq in E
    | E : VStr _ = VStr _ |- _ => inversion E; subst; clear E
    end.

(** The three ways a visit function ends: it throws, it returns without
    recording, or it records the specifier [s] (the remaining goal). *)
Ltac outcome H :=
  first
    [ left; congruence
    | right; left; match goal with a : unit |- _ => destruct a end; congruence
    | right; right;
      match type of H with
      | addTopLevel ?s _ = _ => exists s
      | addLazy ?s _ = _ => exists s
      end ].

Lemma strictEqStr_refl (lit : string) : strictEqStr (VStr lit) lit = true.
Proof. apply String.eqb_refl. Qed.

(** Execution of a visit function in the goal along equations at hand. *)
Ltac run :=
  repeat (cbv beta;
    first
      [ rewrite bind_eval
      | rewrite bind_get
      | rewrite strictEqStr_refl
      | match goal with
        | E : ?x = Some _ |- context [?x] => rewrite E
        | E : ?x = true |- context [?x] => rewrite E
        | E : ?x = false |- context [?x] => rewrite E
        | E : currentDepth ?st = 0 |- context [currentDepth ?st =? 0] =>
            rewrite E; change (0 =? 0) with true
        end
      | progress cbn [andb isString isHeavyDependency when addString] ]).

Ltac clash :=
  repeat match goal with
    | E : Some _ = Some _ |- _ => inversion E; subst; clear E
    | E1 : ?x = Some _, E2 : ?x = None |- _ => rewrite E1 in E2; discriminate
    | E1 : ?x = Some ?a, E2 : ?x = Some ?b |- _ =>
        rewrite E1 in E2; inversion E2; subst; clear E2
    end.

Lemma first_argument_node (args : list value) (arg : value) :
  forallb isNode args = true ->
  (0 <? Z.of_nat (List.length args)) = true ->
  getProp (VArr args) "0" = Some arg ->
  exists fs, arg = VObj fs.
Proof.
  intros Hn Hpos H. destruct args as [|a args]; [discriminate|].
  simpl in H. inversion H; subst. simpl in Hn.
  apply andb_true_iff in Hn. destruct Hn as [Ha _].
  destruct arg; try discriminate. now exists fields.
Qed.

(** The argument handling shared by the two call forms cannot throw on an
    array of argument nodes. *)
Ltac no_throw Hn :=
  clash; sites; try discriminate;
  repeat match goal with
    | E : getProp (VArr _) "length" = Some _ |- _ => simpl in E; inversion E; subst; clear E
    | E : getProp (VArr _) "length" = None |- _ => discriminate E
    | E : getProp (VArr _) "0" = None |- _ => discriminate E
    | E : gtZero _ (VNum _) = None |- _ => discriminate E
    | E : gtZero _ (VNum _) = Some true |- _ => simpl in E; inversion E; clear E
    | E : isHeavyDependency _ (VStr _) = None |- _ => discriminate E
    | E : getProp (VObj _) _ = None |- _ => discriminate E
    | Hp : (0 <? Z.of_nat (List.length ?args)) = true,
      E : getProp (VArr ?args) "0" = Some ?arg |- _ =>
        destruct (first_argument_node args arg Hn Hp E) as [? ->]; clear E
    end.

Section WalkFacts.

Variable heavy : list string.
Variable coerceGtZero : value -> option bool.

Local Abbreviation walk := (walkNode heavy coerceGtZero).
Local Abbreviation classify' := (classify heavy coerceGtZero).

(** One call of [walkNode]: visit, enter, walk the targets in order, leave. *)
Lemma walkNode_eq (node : value) (st : walk_state) :
  walk node st =
  if negb (isObject node) then ret tt st
  else (classify' node ;;
        when (isFunctionNode node) incrDepth ;;
        walkList walk (walkTargets node) ;;
        when (isFunctionNode node) decrDepth) st.
Proof.
  destruct node; try reflexivity.
  - cbn [walkNode isObject negb walkTargets].
    apply bind_ext; intros _ st1. apply bind_ext; intros _ st2.
    unfold bind at 1 3.
    rewrite (forIn_walkList walk (fun x => x)) by (intros; try destruct x; reflexivity).
    reflexivity.
  - cbn [walkNode isObject negb walkTargets].
    apply bind_ext; intros _ st1. apply bind_ext; intros _ st2.
    unfold bind at 1 3.
    rewrite (forIn_walkList walk (fun kv => snd kv)) by (intros; try destruct x; reflexivity).
    reflexivity.
Qed.

Lemma visitImportDeclaration_spec (node : value) (st : walk_state) :
  visitImportDeclaration heavy node st = Exc st
  \/ visitImportDeclaration heavy node st = Val tt st
  \/ exists s, currentDepth st = 0 /\ importSite node s /\ isHeavy heavy s = true /\
               visitImportDeclaration heavy node st = addTopLevel s st.
Proof.
  destruct (visitImportDeclaration heavy node st) as [a st'|st'] eqn:H;
    unfold visitImportDeclaration, when in H; exec H; sites;
    unfold ret, addString in H; outcome H.
  all: repeat split; auto; eexists; repeat split; eassumption.
Qed.

Lemma visitRequire_spec (node : value) (st : walk_state) :
  visitRequire heavy coerceGtZero node st = Exc st
  \/ visitRequire heavy coerceGtZero node st = Val tt st
  \/ exists s,
       (getProp node "type" = Some (VStr "CallExpression") ->
        requireSite coerceGtZero node s) /\
       isHeavy heavy s = true /\
       visitRequire heavy coerceGtZero node st =
       (if currentDepth st =? 0 then addTopLevel s st else addLazy s st).
Proof.
  destruct (visitRequire heavy coerceGtZero node st) as [a st'|st'] eqn:H;
    unfold visitRequire, when in H; exec H; sites;
    unfold ret, addString in H; outcome H.
  all: split; [intros Hty; split;
                 [do 3 eexists; repeat split; eassumption
                 | eexists; split; eassumption]
              | split; [assumption|] ].
  all: try match goal with
           | E : currentDepth _ = 0 |- _ => rewrite E; simpl
           | E : (currentDepth _ =? 0) = false |- _ => rewrite E
           end;
    now symmetry.
Qed.

Lemma visitDynamicImport_spec (node : value) (st : walk_state) :
  visitDynamicImport heavy coerceGtZero node st = Exc st
  \/ visitDynamicImport heavy coerceGtZero node st = Val tt st
  \/ exists s, isHeavy heavy s = true /\
               visitDynamicImport heavy coerceGtZero node st = addLazy s st.
Proof.
  destruct (visitDynamicImport heavy coerceGtZero node st) as [a st'|st'] eqn:H;
    unfold visitDynamicImport, when in H; exec H; sites;
    unfold ret, addString in H; outcome H.
  all: split; [assumption | now symmetry].
Qed.

Lemma visitCallExpression_unfold (node : value) (st : walk_state) :
  visitCallExpression heavy coerceGtZero node st =
  match getProp node "type" with
  | None => Exc st
  | Some ty =>
      if strictEqStr ty "CallExpression" then
        match visitRequire heavy coerceGtZero node st with
        | Val _ st1 => visitDynamicImport heavy coerceGtZero node st1
        | Exc st1 => Exc st1
        end
      else Val tt st
  end.
Proof.
  unfold visitCallExpression. rewrite bind_eval.
  destruct (getProp node "type") as [ty|]; [|reflexivity].
  destruct (strictEqStr ty "CallExpression"); reflexivity.
Qed.

Lemma classify_unfold (node : value) (st : walk_state) :
  classify' node st =
  match visitImportDeclaration heavy node st with
  | Val _ st1 => visitCallExpression heavy coerceGtZero node st1
  | Exc st1 => Exc st1
  end.
Proof. reflexivity. Qed.

(** Visiting a node changes neither [currentDepth] nor its history,
    whether the visit returns or throws. *)
Lemma classify_depth (node : value) (st : walk_state) :
  currentDepth (final (classify' node st)) = currentDepth st /\
  depthLog (final (classify' node st)) = depthLog st.
Proof.
  rewrite classify_unfold.
  assert (Hdyn : forall st1,
             currentDepth (final (visitDynamicImport heavy coerceGtZero node st1)) = currentDepth st1 /\
             depthLog (final (visitDynamicImport heavy coerceGtZero node st1)) = depthLog st1).
  { intros st1.
    destruct (visitDynamicImport_spec node st1) as [-> | [-> | [s [_ ->]]]]; simpl; auto. }
  assert (Hcall : forall st1,
             currentDepth (final (visitCallExpression heavy coerceGtZero node st1)) = currentDepth st1 /\
             depthLog (final (visitCallExpression heavy coerceGtZero node st1)) = depthLog st1).
  { intros st1. rewrite visitCallExpression_unfold.
    destruct (getProp node "type") as [ty|]; [|simpl; auto].
    destruct (strictEqStr ty "CallExpression"); [|simpl; auto].
    destruct (visitRequire_spec node st1) as [-> | [-> | [s [_ [_ ->]]]]];
      [simpl; auto | apply Hdyn |].
    destruct (currentDepth st1 =? 0); simpl;
      match goal with |- context [visitDynamicImport _ _ _ ?x] =>
        destruct (Hdyn x) as [-> ->] end; simpl; auto. }
  destruct (visitImportDeclaration_spec node st) as [-> | [-> | [s [_ [_ [_ ->]]]]]];
    [simpl; auto | apply Hcall |].
  simpl.
  match goal with |- context [visitCallExpression _ _ _ ?x] =>
    destruct (Hcall x) as [-> ->] end; simpl; auto.
Qed.

(** What a visit that returns has added to [topLevelImports]. *)
Lemma classify_top (node : value) (st : walk_state) :
  returns (classify' node st) ->
  topLevelImports (final (classify' node st)) = topLevelImports st \/
  exists s, currentDepth st = 0 /\ isHeavy heavy s = true /\
            topSite coerceGtZero node s /\
            topLevelImports (final (classify' node st)) = setAdd s (topLevelImports st).
Proof.
  rewrite classify_unfold.
  assert (Hdyn : forall st1,
             topLevelImports (final (visitDynamicImport heavy coerceGtZero node st1))
             = topLevelImports st1).
  { intros st1.
    destruct (visitDynamicImport_spec node st1) as [-> | [-> | [s [_ ->]]]]; reflexivity. }
  destruct (visitImportDeclaration_spec node st) as [-> | [-> | [s [Hd [Hs [Hh ->]]]]]].
  - intros [].
  - rewrite visitCallExpression_unfold.
    destruct (getProp node "type") as [ty|] eqn:Hty; [|intros []].
    destruct (strictEqStr ty "CallExpression") eqn:Hc; [|now left].
    apply strictEqStr_true in Hc; subst ty.
    destruct (visitRequire_spec node st) as [-> | [-> | [s [Hs [Hh ->]]]]].
    + intros [].
    + intros _. left. apply Hdyn.
    + intros _. destruct (currentDepth st =? 0) eqn:Hd;
        unfold addTopLevel, addLazy; cbv iota beta; rewrite Hdyn; simpl.
      * right. exists s. apply Z.eqb_eq in Hd. repeat split; auto. right. auto.
      * now left.
  - intros _. unfold addTopLevel. rewrite visitCallExpression_unfold.
    pose proof Hs as [src [Hty _]]. rewrite Hty. simpl.
    right. exists s. repeat split; auto. now left.
Qed.

Lemma In_setAdd (s x : string) (l : list string) :
  In x (setAdd s l) <-> x = s \/ In x l.
Proof.
  unfold setAdd. destruct (includes l s) eqn:E.
  - apply includes_iff in E. split; [auto | intros [-> | H]; auto].
  - rewrite in_app_iff. simpl. intuition.
Qed.

Lemma NoDup_setAdd (s : string) (l : list string) : NoDup l -> NoDup (setAdd s l).
Proof.
  intros H. unfold setAdd. destruct (includes l s) eqn:E; [assumption|].
  assert (Hn : ~ In s l).
  { intros Hin. apply includes_iff in Hin. congruence. }
  clear E. induction H as [|x l Hx Hl IH]; simpl.
  - constructor; [intros [] | constructor].
  - constructor.
    + rewrite in_app_iff. simpl. intros [Hin | [-> | []]]; [auto|].
      apply Hn. now left.
    + apply IH. intros Hin. apply Hn. now right.
Qed.

(** A static import or a [require] call of a heavy [s], visited at depth
    0, is in [topLevelImports] when the visit returns. *)
Lemma classify_records (node : value) (s : string) (st : walk_state) :
  currentDepth st = 0 ->
  topSite coerceGtZero node s ->
  isHeavy heavy s = true ->
  returns (classify' node st) ->
  In s (topLevelImports (final (classify' node st))).
Proof.
  intros Hd [[src [Hty [Hsrc Hval]]] | [[args [len [arg Hc]]] [callee [Hcallee Hname]]]] Hh.
  - rewrite classify_unfold. unfold visitImportDeclaration. run.
    unfold addTopLevel. rewrite visitCallExpression_unfold. run. simpl.
    intros _. apply In_setAdd. now left.
  - destruct Hc as (Hty & Hargs & Hlen & Hpos & Harg & Haty & Hval).
    rewrite classify_unfold.
    assert (Himp : visitImportDeclaration heavy node st = Val tt st).
    { unfold visitImportDeclaration. run. reflexivity. }
    rewrite Himp, visitCallExpression_unfold. run.
    assert (Hreq : visitRequire heavy coerceGtZero node st = addTopLevel s st).
    { unfold visitRequire. run. reflexivity. }
    rewrite Hreq. unfold addTopLevel.
    match goal with |- context [visitDynamicImport _ _ _ ?x] =>
      destruct (visitDynamicImport_spec node x) as [-> | [-> | [s' [_ ->]]]] end;
      simpl; [intros [] | |]; intros _; apply In_setAdd; now left.
Qed.

Lemma visitRequire_wf (node : value) (c : list (string * value)) (args : list value)
      (st : walk_state) :
  getProp node "callee" = Some (VObj c) ->
  getProp node "arguments" = Some (VArr args) ->
  forallb isNode args = true ->
  returns (visitRequire heavy coerceGtZero node st).
Proof.
  intros Hc Ha Hn.
  destruct (visitRequire heavy coerceGtZero node st) as [a st'|st'] eqn:H; [exact I|].
  exfalso. unfold visitRequire, when in H. exec H; no_throw Hn.
Qed.

Lemma visitDynamicImport_wf (node : value) (c : list (string * value)) (args : list value)
      (st : walk_state) :
  getProp node "callee" = Some (VObj c) ->
  getProp node "arguments" = Some (VArr args) ->
  forallb isNode args = true ->
  returns (visitDynamicImport heavy coerceGtZero node st).
Proof.
  intros Hc Ha Hn.
  destruct (visitDynamicImport heavy coerceGtZero node st) as [a st'|st'] eqn:H; [exact I|].
  exfalso. unfold visitDynamicImport, when in H. exec H; no_throw Hn.
Qed.

Lemma getProp_object (node : value) (k : string) :
  isObject node = true -> exists v, getProp node k = Some v.
Proof.
  destruct node; try discriminate; intros _; simpl.
  - destruct (String.eqb k "length"); [eauto|]. destruct (String.eqb k "0"); eauto.
  - eauto.
Qed.

Lemma visitImportDeclaration_wf (node : value) (st : walk_state) :
  isObject node = true -> nodeOk node = true ->
  returns (visitImportDeclaration heavy node st).
Proof.
  intros Hobj Hok.
  destruct (visitImportDeclaration heavy node st) as [a st'|st'] eqn:H; [exact I|].
  exfalso. unfold visitImportDeclaration, when in H. exec H; sites; try discriminate.
  - unfold nodeOk in Hok.
    match goal with E : getProp node "type" = _ |- _ => rewrite E in Hok end.
    simpl in Hok.
    match goal with E : getProp node "source" = _ |- _ => rewrite E in Hok end.
    match goal with E : getProp ?v "value" = Some ?w |- _ =>
      destruct v; try discriminate; simpl in E; inversion E; subst end.
    apply isString_true in Hok. destruct Hok as [x Hx].
    match goal with E : isHeavyDependency _ _ = None |- _ => rewrite Hx in E; discriminate E end.
  - unfold nodeOk in Hok.
    match goal with E : getProp node "type" = _ |- _ => rewrite E in Hok end.
    simpl in Hok.
    match goal with E : getProp node "source" = _ |- _ => rewrite E in Hok end.
    match goal with E : getProp ?v "value" = None |- _ =>
      destruct v; try discriminate end.
  - unfold nodeOk in Hok.
    match goal with E : getProp node "type" = _ |- _ => rewrite E in Hok end.
    simpl in Hok.
    match goal with E : getProp node "source" = _ |- _ => rewrite E in Hok end.
    discriminate.
  - destruct (getProp_object node "type" Hobj) as [v Hv]. congruence.
Qed.

Lemma visitCallExpression_wf (node : value) (st : walk_state) :
  isObject node = true -> nodeOk node = true ->
  returns (visitCallExpression heavy coerceGtZero node st).
Proof.
  intros Hobj Hok. rewrite visitCallExpression_unfold.
  destruct (getProp_object node "type" Hobj) as [ty Hty]. rewrite Hty.
  destruct (strictEqStr ty "CallExpression") eqn:Hc; [|exact I].
  apply strictEqStr_true in Hc. subst ty.
  unfold nodeOk in Hok. rewrite Hty in Hok. simpl in Hok.
  destruct (getProp node "callee") as [[| | | | | |c]|] eqn:Hcallee; try discriminate.
  destruct (getProp node "arguments") as [[| | | | |args|]|] eqn:Hargs; try discriminate.
  pose proof (visitRequire_wf node c args st Hcallee Hargs Hok) as Hr.
  destruct (visitRequire heavy coerceGtZero node st) as [a st1|st1]; [|destruct Hr].
  now apply (visitDynamicImport_wf node c args).
Qed.

(** Visiting a node of the parser's shape does not throw. *)
Lemma classify_wf (node : value) (st : walk_state) :
  isObject node = true -> nodeOk node = true -> returns (classify' node st).
Proof.
  intros Hobj Hok. rewrite classify_unfold.
  pose proof (visitImportDeclaration_wf node st Hobj Hok) as Hi.
  destruct (visitImportDeclaration heavy node st) as [a st1|st1]; [|destruct Hi].
  now apply visitCallExpression_wf.
Qed.

(** *** Recursion descends into strictly smaller values *)

Lemma size_elem (es : list value) (c : value) :
  In c es -> (size c <= fold_right (fun e n => size e + n) 0 es)%nat.
Proof.
  induction es as [|e es IH]; simpl; [intros [] | intros [-> | H]].
  - lia.
  - apply IH in H. lia.
Qed.

Lemma size_childTargets (child c : value) :
  In c (childTargets child) -> (size c <= size child)%nat.
Proof.
  destruct child; simpl; try (intros []).
  - intros H. apply filter_In in H. destruct H as [H _].
    apply size_elem in H. lia.
  - destruct (hasType (VObj fields)); simpl; [intros [<- | []]; simpl; lia | intros []].
Qed.

Lemma size_walkTargets (node c : value) :
  In c (walkTargets node) -> (size c < size node)%nat.
Proof.
  destruct node; simpl; try (intros []).
  - induction elems as [|e es IH]; simpl; [intros []|].
    rewrite in_app_iff. intros [H | H].
    + apply size_childTargets in H. lia.
    + apply IH in H. lia.
  - induction fields as [|[k e] fs IH]; simpl; [intros []|].
    rewrite in_app_iff. intros [H | H].
    + apply size_childTargets in H. lia.
    + apply IH in H. lia.
Qed.

(** Induction along the calls of the walk. *)
Lemma walk_ind (P : value -> Prop) :
  (forall node, (forall c, In c (walkTargets node) -> P c) -> P node) ->
  forall node, P node.
Proof.
  intros step.
  assert (H : forall n node, (size node < n)%nat -> P node).
  { induction n as [|n IH]; intros node Hn; [lia|].
    apply step. intros c Hc. apply IH.
    apply size_walkTargets in Hc. lia. }
  intros node. apply (H (S (size node))). lia.
Qed.

(** *** Invariants of the walk *)

Lemma walkList_invariant (P : walk_state -> Prop) (ts : list value) :
  (forall c, In c ts -> forall st, P st -> P (final (walk c st))) ->
  forall st, P st -> P (final (walkList walk ts st)).
Proof.
  induction ts as [|t ts IH]; intros Hts st Hst; simpl; [assumption|].
  unfold bind.
  pose proof (Hts t (or_introl eq_refl) st Hst) as Ht.
  destruct (walk t st) as [a st1|st1]; simpl in Ht; [|assumption].
  apply IH; [|assumption]. intros c Hc. apply Hts. now right.
Qed.

Lemma walk_invariant (P : walk_state -> Prop) :
  (forall m st, P st -> P (final (classify' m st))) ->
  (forall d st, P st -> P (final (setDepth d st))) ->
  forall node st, P st -> P (final (walk node st)).
Proof.
  intros Hclassify Hdepth node.
  induction node as [node IH] using walk_ind. intros st Hst.
  rewrite walkNode_eq. destruct (isObject node); simpl; [|assumption].
  unfold bind at 1.
  pose proof (Hclassify node st Hst) as H1.
  destruct (classify' node st) as [a st1|st1]; simpl in H1; [|assumption].
  unfold bind at 1.
  assert (H2 : P (final (when (isFunctionNode node) incrDepth st1))).
  { destruct (isFunctionNode node); simpl; [apply Hdepth|]; assumption. }
  destruct (when (isFunctionNode node) incrDepth st1) as [a2 st2|st2] eqn:E2;
    simpl in H2; [|assumption].
  unfold bind at 1.
  pose proof (walkList_invariant P (walkTargets node) IH st2 H2) as H3.
  destruct (walkList walk (walkTargets node) st2) as [a3 st3|st3];
    simpl in H3; [|assumption].
  destruct (isFunctionNode node); simpl; [apply Hdepth|]; assumption.
Qed.

(** *** Depth discipline *)

Lemma balanced_stay {A} (st st' : walk_state) (r : res A) :
  final r = st' -> currentDepth st' = currentDepth st -> depthLog st' = depthLog st ->
  balanced st r.
Proof.
  intros Hf Hd Hl. split.
  - exists []. rewrite Hf. simpl. auto.
  - intros _. rewrite Hf. assumption.
Qed.

Lemma walkList_balanced (ts : list value) :
  (forall c, In c ts -> forall st, balanced st (walk c st)) ->
  forall st, balanced st (walkList walk ts st).
Proof.
  induction ts as [|t ts IH]; intros Hts st; simpl.
  - now apply (balanced_stay st st).
  - unfold bind.
    destruct (Hts t (or_introl eq_refl) st) as [[new [Hlog Hall]] Hret].
    destruct (walk t st) as [a st1|st1]; simpl in *.
    + specialize (Hret I).
      destruct (IH (fun c Hc => Hts c (or_intror Hc)) st1) as [[new' [Hlog' Hall']] Hret'].
      split.
      * exists (new' ++ new)%list. rewrite Hlog', Hlog, app_assoc. split; [reflexivity|].
        apply Forall_app. split; [|assumption].
        rewrite Hret in Hall'. assumption.
      * intros Hr. rewrite (Hret' Hr). assumption.
    + split; [exists new; auto | intros []].
Qed.

Lemma walk_balanced (node : value) : forall st, balanced st (walk node st).
Proof.
  induction node as [node IH] using walk_ind. intros st.
  rewrite walkNode_eq.
  destruct (isObject node); simpl; [|now apply (balanced_stay st st)].
  unfold bind at 1.
  destruct (classify_depth node st) as [Hd Hl].
  destruct (classify' node st) as [a st1|st1]; simpl in Hd, Hl;
    [|now apply (balanced_stay st st1)].
  pose proof (walkList_balanced (walkTargets node) IH) as Hlist.
  destruct (isFunctionNode node); unfold bind at 1;
    unfold when, incrDepth, decrDepth, setDepth, ret; simpl.
  - specialize (Hlist (mkState (currentDepth st1 + 1) (topLevelImports st1)
                               (lazyImports st1) ((currentDepth st1 + 1) :: depthLog st1))).
    destruct Hlist as [[new [Hlog Hall]] Hret]. unfold bind.
    match type of Hlog with context [walkList ?w ?t ?x] =>
      destruct (walkList w t x) as [a2 st2|st2] end; simpl in *.
    + specialize (Hret I). unfold balanced; simpl; split.
      * exists ((currentDepth st2 - 1) :: new ++ [currentDepth st1 + 1])%list.
        rewrite Hlog, Hl. simpl. rewrite <- app_assoc. split; [reflexivity|].
        constructor; [lia|]. apply Forall_app. split.
        -- eapply Forall_impl; [|exact Hall]. simpl. intros; lia.
        -- constructor; [lia | constructor].
      * intros _. simpl. lia.
    + unfold balanced; simpl; split; [|intros []].
      exists (new ++ [currentDepth st1 + 1])%list. simpl.
      rewrite Hlog, Hl. rewrite <- app_assoc. split; [reflexivity|].
      apply Forall_app. split.
      * eapply Forall_impl; [|exact Hall]. simpl. intros; lia.
      * constructor; [lia | constructor].
  - destruct (Hlist st1) as [[new [Hlog Hall]] Hret]. unfold bind.
    destruct (walkList walk (walkTargets node) st1) as [a2 st2|st2]; simpl in *.
    + unfold balanced; simpl; split.
      * exists new. rewrite Hlog, Hl. split; [reflexivity|].
        eapply Forall_impl; [|exact Hall]. simpl. intros; lia.
      * intros _. rewrite (Hret I). assumption.
    + unfold balanced; simpl; split; [|intros []].
      exists new. rewrite Hlog, Hl. split; [reflexivity|].
      eapply Forall_impl; [|exact Hall]. simpl. intros; lia.
Qed.

(** *** What ends up in [topLevelImports] *)

Lemma classify_top_iff (node : value) (st : walk_state) :
  returns (classify' node st) ->
  forall s, In s (topLevelImports (final (classify' node st))) <->
            In s (topLevelImports st) \/
            (currentDepth st = 0 /\ topSite coerceGtZero node s /\ isHeavy heavy s = true).
Proof.
  intros Hr s. split.
  - destruct (classify_top node st Hr) as [-> | [s0 [Hd [Hh [Hs ->]]]]]; [auto|].
    rewrite In_setAdd. intros [-> | H]; auto.
  - intros [H | [Hd [Hs Hh]]].
    + destruct (classify_top node st Hr) as [-> | [s0 [_ [_ [_ ->]]]]]; [assumption|].
      apply In_setAdd. now right.
    + now apply classify_records.
Qed.

Lemma reach_inv (d : Z) (node : value) (e : Z) (m : value) :
  reach d node e m <->
  isObject node = true /\
  ((d = e /\ node = m) \/
   exists c, In c (walkTargets node) /\ reach (d + bump node) c e m).
Proof.
  split.
  - intros H. inversion H; subst; split; eauto.
  - intros [Hobj [[-> ->] | [c [Hc Hr]]]].
    + now apply reach_here.
    + now apply (reach_below _ _ c).
Qed.

Lemma walkList_top (ts : list value) :
  (forall c, In c ts -> forall st, returns (walk c st) ->
     forall s, In s (topLevelImports (final (walk c st))) <->
               In s (topLevelImports st) \/ topSiteBelow heavy coerceGtZero (currentDepth st) c s) ->
  forall st, returns (walkList walk ts st) ->
    forall s, In s (topLevelImports (final (walkList walk ts st))) <->
              In s (topLevelImports st) \/
              exists c, In c ts /\ topSiteBelow heavy coerceGtZero (currentDepth st) c s.
Proof.
  induction ts as [|t ts IH]; intros Hts st Hr s; simpl in *.
  - split; [auto | intros [H | [c [[] _]]]; assumption].
  - unfold bind in *.
    pose proof (Hts t (or_introl eq_refl) st) as Ht.
    destruct (walk_balanced t st) as [_ Hd].
    destruct (walk t st) as [a st1|st1]; simpl in *; [|destruct Hr].
    specialize (Ht I s). specialize (Hd I).
    rewrite (IH (fun c Hc => Hts c (or_intror Hc)) st1 Hr s), Ht, Hd.
    split.
    + intros [[H | H] | [c [Hc H]]]; eauto.
    + intros [H | [c [[<- | Hc] H]]]; eauto.
Qed.

(** The names in [topLevelImports] after a walk that returns: those there
    before, and the heavy names imported or required at depth 0. *)
Lemma walk_top (node : value) :
  forall st, returns (walk node st) ->
    forall s, In s (topLevelImports (final (walk node st))) <->
              In s (topLevelImports st) \/ topSiteBelow heavy coerceGtZero (currentDepth st) node s.
Proof.
  induction node as [node IH] using walk_ind. intros st.
  rewrite walkNode_eq. unfold topSiteBelow.
  destruct (isObject node) eqn:Hobj; simpl.
  2:{ intros _ s. split; [auto | intros [H | [m [Hr _]]]; [assumption|]].
      apply reach_inv in Hr. destruct Hr as [Hr _]. congruence. }
  unfold bind.
  pose proof (classify_top_iff node st) as Hc.
  destruct (classify_depth node st) as [Hd _].
  destruct (classify' node st) as [a st1|st1]; simpl in Hc, Hd; [|intros []].
  specialize (Hc I).
  pose proof (walkList_top (walkTargets node) IH) as Hlist.
  assert (Hin : forall st2 : walk_state,
             currentDepth st2 = currentDepth st + bump node ->
             topLevelImports st2 = topLevelImports st1 ->
             returns (walkList walk (walkTargets node) st2) ->
             forall s, In s (topLevelImports (final (walkList walk (walkTargets node) st2))) <->
                       In s (topLevelImports st) \/
                       exists m, reach (currentDepth st) node 0 m /\
                                 topSite coerceGtZero m s /\ isHeavy heavy s = true).
  { intros st2 Hd2 Ht2 Hr s. rewrite (Hlist st2 Hr s), Ht2, Hc, Hd2. split.
    - intros [[H | [Hd0 [Hs Hh]]] | [c [Hcin [m [Hm Hs]]]]].
      + now left.
      + right. exists node. split; [|auto]. rewrite Hd0. now apply reach_here.
      + right. exists m. split; [|assumption]. now apply (reach_below _ _ c).
    - intros [H | [m [Hm [Hs Hh]]]]; [auto|].
      apply reach_inv in Hm. destruct Hm as [_ [[Hd0 <-] | [c [Hcin Hm]]]].
      + left. right. auto.
      + right. exists c. split; [assumption|]. exists m. auto. }
  unfold bump in Hin.
  destruct (isFunctionNode node);
    unfold when, incrDepth, decrDepth, setDepth, ret; simpl.
  - match goal with |- context [walkList ?w ?t ?x] =>
      specialize (Hin x); destruct (walkList w t x) as [a2 st2|st2] end;
      simpl in *; [|intros []].
    intros _ s. cbn. apply Hin; auto. lia.
  - specialize (Hin st1).
    destruct (walkList walk (walkTargets node) st1) as [a2 st2|st2];
      simpl in *; [|intros []].
    intros _ s. cbn. apply Hin; auto. lia.
Qed.

(** *** The walk of a parser-shaped tree returns *)

Lemma wellFormed_childTargets (child c : value) :
  wellFormed child = true -> In c (childTargets child) -> wellFormed c = true.
Proof.
  destruct child; simpl; try (intros _ []).
  - intros Hwf Hc. apply filter_In in Hc. destruct Hc as [Hc _].
    rewrite forallb_forall in Hwf. now apply Hwf.
  - intros Hwf. destruct (hasType (VObj fields)); [|intros []].
    intros [<- | []]. exact Hwf.
Qed.

Lemma wellFormed_walkTargets (node c : value) :
  wellFormed node = true -> In c (walkTargets node) -> wellFormed c = true.
Proof.
  destruct node; simpl; try (intros _ []).
  - intros Hwf Hc. apply in_flat_map in Hc. destruct Hc as [e [He Hc]].
    rewrite forallb_forall in Hwf. apply (wellFormed_childTargets e); auto.
  - intros Hwf Hc. apply andb_true_iff in Hwf. destruct Hwf as [_ Hwf].
    apply in_flat_map in Hc. destruct Hc as [kv [He Hc]].
    rewrite forallb_forall in Hwf. apply (wellFormed_childTargets (snd kv)); auto.
Qed.

Lemma wellFormed_nodeOk (node : value) :
  wellFormed node = true -> isObject node = true -> nodeOk node = true.
Proof.
  destruct node; try discriminate; simpl; intros Hwf _.
  - reflexivity.
  - apply andb_true_iff in Hwf. tauto.
Qed.

Lemma walkList_returns (ts : list value) :
  (forall c, In c ts -> forall st, returns (walk c st)) ->
  forall st, returns (walkList walk ts st).
Proof.
  induction ts as [|t ts IH]; intros Hts st; simpl; [exact I|].
  unfold bind. pose proof (Hts t (or_introl eq_refl) st) as Ht.
  destruct (walk t st) as [a st1|st1]; [|destruct Ht].
  apply IH. intros c Hc. apply Hts. now right.
Qed.

Lemma walk_wf (node : value) :
  wellFormed node = true -> forall st, returns (walk node st).
Proof.
  induction node as [node IH] using walk_ind. intros Hwf st.
  rewrite walkNode_eq. destruct (isObject node) eqn:Hobj; simpl; [|exact I].
  unfold bind.
  pose proof (classify_wf node st Hobj (wellFormed_nodeOk node Hwf Hobj)) as Hc.
  destruct (classify' node st) as [a st1|st1]; [|destruct Hc].
  assert (Hlist : forall st2, returns (walkList walk (walkTargets node) st2)).
  { apply walkList_returns. intros c Hcin. apply IH; [assumption|].
    now apply (wellFormed_walkTargets node). }
  destruct (isFunctionNode node); unfold when, incrDepth, decrDepth, setDepth, ret; simpl.
  - match goal with |- context [walkList ?w ?t ?x] =>
      specialize (Hlist x); destruct (walkList w t x) end; [exact I | destruct Hlist].
  - specialize (Hlist st1).
    destruct (walkList walk (walkTargets node) st1); [exact I | destruct Hlist].
Qed.

(** [topLevelImports] never holds a name twice. *)
Lemma walk_NoDup (node : value) (st : walk_state) :
  NoDup (topLevelImports st) -> NoDup (topLevelImports (final (walk node st))).
Proof.
  apply (walk_invariant (fun st => NoDup (topLevelImports st))).
  - intros m st0 H. rewrite classify_unfold.
    assert (Hdyn : forall st1, NoDup (topLevelImports st1) ->
              NoDup (topLevelImports (final (visitDynamicImport heavy coerceGtZero m st1)))).
    { intros st1 H1.
      destruct (visitDynamicImport_spec m st1) as [-> | [-> | [s [_ ->]]]]; assumption. }
    assert (Hcall : forall st1, NoDup (topLevelImports st1) ->
              NoDup (topLevelImports (final (visitCallExpression heavy coerceGtZero m st1)))).
    { intros st1 H1. rewrite visitCallExpression_unfold.
      destruct (getProp m "type") as [ty|]; [|assumption].
      destruct (strictEqStr ty "CallExpression"); [|assumption].
      destruct (visitRequire_spec m st1) as [-> | [-> | [s [_ [_ ->]]]]];
        [assumption | now apply Hdyn |].
      destruct (currentDepth st1 =? 0); unfold addTopLevel, addLazy; apply Hdyn; simpl;
        [now apply NoDup_setAdd | assumption]. }
    destruct (visitImportDeclaration_spec m st0) as [-> | [-> | [s [_ [_ [_ ->]]]]]];
      [assumption | now apply Hcall |].
    unfold addTopLevel. apply Hcall. simpl. now apply NoDup_setAdd.
  - intros d st0 H. exact H.
Qed.

End WalkFacts.

(** ** Scope depth *)

(** C3: during the walk of any tree from depth 0, [currentDepth] never
    holds a negative value, and when the walk returns it is 0 again; the
    history is non-negative also when the walk is cut short by an
    exception. *)
Theorem depth_balance (heavy : list string) (coerceGtZero : value -> option bool)
        (ast : value) :
  match walkNode heavy coerceGtZero ast initialState with
  | Val _ st => currentDepth st = 0 /\ Forall (fun d => 0 <= d) (depthLog st)
  | Exc st => Forall (fun d => 0 <= d) (depthLog st)
  end.
Proof.
  destruct (walk_balanced heavy coerceGtZero ast initialState) as [[new [Hlog Hall]] Hret].
  assert (H : Forall (fun d => 0 <= d)
                     (depthLog (final (walkNode heavy coerceGtZero ast initialState)))).
  { rewrite Hlog. apply Forall_app. split; [exact Hall|].
    simpl. constructor; [lia | constructor]. }
  destruct (walkNode heavy coerceGtZero ast initialState) as [a st|st]; simpl in *.
  - split; [now apply Hret | exact H].
  - exact H.
Qed.

(** ** Node kinds the classifier ignores *)

(** C9: a visit of a node whose [type] is neither [ImportDeclaration] nor
    [CallExpression] returns with the state untouched, so nothing enters
    [topLevelImports] or [lazyImports]; this holds in particular for an
    [ImportExpression], the node acorn builds for a dynamic import. *)
Theorem classify_ignores_other_types (heavy : list string)
        (coerceGtZero : value -> option bool) :
  (forall node ty st,
      getProp node "type" = Some ty ->
      strictEqStr ty "ImportDeclaration" = false ->
      strictEqStr ty "CallExpression" = false ->
      classify heavy coerceGtZero node st = Val tt st)
  /\ (forall node st,
         getProp node "type" = Some (VStr "ImportExpression") ->
         classify heavy coerceGtZero node st = Val tt st).
Proof.
  assert (H : forall node ty st,
             getProp node "type" = Some ty ->
             strictEqStr ty "ImportDeclaration" = false ->
             strictEqStr ty "CallExpression" = false ->
             classify heavy coerceGtZero node st = Val tt st).
  { intros node ty st Hty Hi Hc.
    rewrite classify_unfold. unfold visitImportDeclaration.
    rewrite bind_eval, Hty, bind_get, Hi. simpl.
    rewrite visitCallExpression_unfold, Hty, Hc. reflexivity. }
  split; [exact H|].
  intros node st Hty. now apply (H node (VStr "ImportExpression")).
Qed.

Lemma classify_ignores_other_types_witness :
  classify HEAVY_DEPENDENCIES Sample.noCoercion (Sample.ImportExpression "lodash") initialState
  = Val tt initialState.
Proof.
  apply (proj2 (classify_ignores_other_types HEAVY_DEPENDENCIES Sample.noCoercion)).
  reflexivity.
Defined.

(** ** Diagnostics come from [topLevelImports] only *)

(** The diagnostics a check adds are exactly the reports of the distinct
    heavy names imported or required at depth 0. *)
Lemma check_diagnostics (heavy : list string) (coerceGtZero : value -> option bool)
      (ast : value) (filePath : string) (l l' : linter) :
  checkLazyImportHeavyDeps heavy coerceGtZero ast filePath l = Normal l' ->
  exists tops,
    l' = {| errors := errors l ++ map (report filePath) tops; console := console l |} /\
    NoDup tops /\
    forall s, In s tops <-> topSiteBelow heavy coerceGtZero 0 ast s.
Proof.
  unfold checkLazyImportHeavyDeps. intros H.
  pose proof (walk_top heavy coerceGtZero ast initialState) as Htop.
  pose proof (walk_NoDup heavy coerceGtZero ast initialState) as Hnd.
  destruct (walkNode heavy coerceGtZero ast initialState) as [a st|st];
    [|discriminate]. simpl in *.
  inversion H; subst. exists (topLevelImports st). split; [reflexivity|].
  split; [apply Hnd; constructor|].
  intros s. rewrite (Htop I s). split; [intros [[] | H0]; exact H0 | auto].
Qed.

Lemma check_wf (heavy : list string) (coerceGtZero : value -> option bool)
      (ast : value) (filePath : string) (l : linter) :
  wellFormed ast = true ->
  exists l', checkLazyImportHeavyDeps heavy coerceGtZero ast filePath l = Normal l'.
Proof.
  intros Hwf. unfold checkLazyImportHeavyDeps.
  pose proof (walk_wf heavy coerceGtZero ast Hwf initialState) as Hr.
  destruct (walkNode heavy coerceGtZero ast initialState); [eauto | destruct Hr].
Qed.

(** ** Dynamic import *)

(** C4: visiting a dynamic-import call with a literal first argument [s],
    at any depth, leaves [topLevelImports] as it is and adds [s] to
    [lazyImports] exactly when [s] is heavy; such a node is none of the
    forms that are recorded as top-level; and every diagnostic of a file
    reports a static import or a [require] call at depth 0, so a dynamic
    import never yields one. *)
Theorem dynamic_import_is_lazy (heavy : list string)
        (coerceGtZero : value -> option bool) (node : value) (s : string)
        (st : walk_state) :
  dynamicImportSite coerceGtZero node s ->
  classify heavy coerceGtZero node st =
    Val tt (if isHeavy heavy s
            then mkState (currentDepth st) (topLevelImports st)
                         (setAdd s (lazyImports st)) (depthLog st)
            else st)
  /\ (forall s', ~ topSite coerceGtZero node s')
  /\ (forall ast filePath l l',
         checkLazyImportHeavyDeps heavy coerceGtZero ast filePath l = Normal l' ->
         forall d, In d (errors l') ->
           In d (errors l) \/
           exists s', d = report filePath s' /\ topSiteBelow heavy coerceGtZero 0 ast s').
Proof.
  intros [[args [len [arg Hc]]] [callee [name [Hcallee [Hcty [Hname Hnot]]]]]].
  destruct Hc as (Hty & Hargs & Hlen & Hpos & Harg & Haty & Hval).
  split; [|split].
  - rewrite classify_unfold.
    assert (Himp : visitImportDeclaration heavy node st = Val tt st).
    { unfold visitImportDeclaration. run. reflexivity. }
    rewrite Himp, visitCallExpression_unfold. run.
    assert (Hreq : visitRequire heavy coerceGtZero node st = Val tt st).
    { unfold visitRequire. run. reflexivity. }
    rewrite Hreq. unfold visitDynamicImport. run.
    destruct (isHeavy heavy s); reflexivity.
  - intros s' [[src [Hty' _]] | [_ [callee' [Hcallee' Hname']]]].
    + congruence.
    + rewrite Hcallee in Hcallee'. inversion Hcallee'; subst callee'.
      rewrite Hname in Hname'. inversion Hname'; subst name. discriminate.
  - intros ast filePath l l' Hchk d Hd.
    destruct (check_diagnostics _ _ _ _ _ _ Hchk) as [tops [-> [_ Htops]]].
    simpl in Hd. apply in_app_iff in Hd. destruct Hd as [Hd | Hd]; [now left|].
    apply in_map_iff in Hd. destruct Hd as [s' [<- Hs']].
    right. exists s'. split; [reflexivity | now apply Htops].
Qed.

(** [import('lodash')] at depth 0 with the default list. *)
Lemma dynamic_import_is_lazy_witness :
  classify HEAVY_DEPENDENCIES Sample.noCoercion (Sample.importCall "lodash") initialState
  = Val tt (mkState 0 [] ["lodash"] [0]).
Proof.
  refine (proj1 (dynamic_import_is_lazy HEAVY_DEPENDENCIES Sample.noCoercion
                   (Sample.importCall "lodash") "lodash" initialState _)).
  split.
  - exists (VArr [Sample.Literal "lodash"]), (VNum 1), (Sample.Literal "lodash").
    repeat split; reflexivity.
  - exists (VObj [("type", VStr "Import")]), VUndef. repeat split; reflexivity.
Defined.

(** ** One diagnostic per name *)

Lemma report_inj (filePath s s' : string) :
  report filePath s = report filePath s' -> s = s'.
Proof.
  intros H. apply (f_equal message) in H. simpl in H.
  repeat match type of H with String ?c _ = String ?c _ => inversion H as [H']; clear H; rename H' into H end.
  now apply append_cancel_r in H.
Qed.

Lemma count_reports (filePath s : string) (tops : list string) :
  NoDup tops -> In s tops ->
  count_occ diagnostic_eq_dec (map (report filePath) tops) (report filePath s) = 1%nat.
Proof.
  intros Hnd Hin.
  rewrite <- (count_occ_map (report filePath) string_dec diagnostic_eq_dec
                            (report_inj filePath)).
  now apply (proj1 (NoDup_count_occ' string_dec tops)).
Qed.

(** C5: in a file where a heavy name is imported or required at depth 0,
    however many times, the check adds exactly one diagnostic for it. *)
Theorem one_diagnostic_per_specifier (heavy : list string)
        (coerceGtZero : value -> option bool) (ast : value) (filePath : string)
        (l : linter) (s : string) :
  wellFormed ast = true ->
  isHeavy heavy s = true ->
  (exists m, reach 0 ast 0 m /\ topSite coerceGtZero m s) ->
  exists tops,
    checkLazyImportHeavyDeps heavy coerceGtZero ast filePath l =
      Normal {| errors := errors l ++ map (report filePath) tops; console := console l |}
    /\ count_occ diagnostic_eq_dec (map (report filePath) tops) (report filePath s) = 1%nat.
Proof.
  intros Hwf Hh [m [Hm Hs]].
  destruct (check_wf heavy coerceGtZero ast filePath l Hwf) as [l' Hchk].
  destruct (check_diagnostics _ _ _ _ _ _ Hchk) as [tops [-> [Hnd Htops]]].
  exists tops. split; [exact Hchk|].
  apply count_reports; [exact Hnd|].
  apply Htops. exists m. auto.
Qed.

Lemma requireCall_site (s : string) :
  requireSite Sample.noCoercion (Sample.requireCall s) s.
Proof.
  split.
  - exists (VArr [Sample.Literal s]), (VNum 1), (Sample.Literal s).
    repeat split; reflexivity.
  - exists (Sample.Identifier "require"). split; reflexivity.
Qed.

Lemma one_diagnostic_per_specifier_witness :
  exists tops,
    checkLazyImportHeavyDeps HEAVY_DEPENDENCIES Sample.noCoercion Sample.reactTwice
                             "f.js" newLinter =
      Normal {| errors := [] ++ map (report "f.js") tops; console := [] |}
    /\ count_occ diagnostic_eq_dec (map (report "f.js") tops) (report "f.js" "react") = 1%nat.
Proof.
  apply (one_diagnostic_per_specifier HEAVY_DEPENDENCIES Sample.noCoercion
           Sample.reactTwice "f.js" newLinter "react").
  - reflexivity.
  - reflexivity.
  - exists (Sample.requireCall "react"). split.
    + apply (reach_below _ _ (Sample.ExpressionStatement (Sample.requireCall "react")));
        [reflexivity | simpl; auto |].
      apply (reach_below _ _ (Sample.requireCall "react"));
        [reflexivity | simpl; auto |].
      apply reach_here. reflexivity.
    + right. apply requireCall_site.
Defined.

(** ** A required heavy name at top level and inside a function *)

Lemma NoDup_only (a : string) (l : list string) :
  NoDup l -> (forall x, In x l <-> x = a) -> l = [a].
Proof.
  intros Hnd H. destruct l as [|x l].
  - exfalso. apply (proj2 (H a) eq_refl).
  - assert (x = a) by (apply H; now left). subst x.
    destruct l as [|y l]; [reflexivity|].
    assert (y = a) by (apply H; right; now left). subst y.
    inversion Hnd as [|? ? Hn _]. exfalso. apply Hn. now left.
Qed.

(** C1, as the program has it: when the tree of a file holds
    [require("webpack")] at depth 0 and no static import or [require] of
    another heavy name at depth 0, the check adds exactly one diagnostic,
    with rule [lazy-import-heavy-js-deps], the path of the file and
    severity [warning]; when no static import or [require] of a heavy name
    lies at depth 0, as when the only such call is inside a function body,
    it adds none. *)
Theorem require_webpack_diagnostics (coerceGtZero : value -> option bool)
        (ast : value) (filePath : string) (l : linter) :
  wellFormed ast = true ->
  ((exists m, reach 0 ast 0 m /\ requireSite coerceGtZero m "webpack") ->
   (forall s, topSiteBelow HEAVY_DEPENDENCIES coerceGtZero 0 ast s -> s = "webpack") ->
   checkLazyImportHeavyDeps HEAVY_DEPENDENCIES coerceGtZero ast filePath l =
     Normal {| errors := errors l ++ [report filePath "webpack"]; console := console l |}
   /\ rule (report filePath "webpack") = "lazy-import-heavy-js-deps"
   /\ file (report filePath "webpack") = filePath
   /\ severity (report filePath "webpack") = "warning")
  /\ ((forall s, ~ topSiteBelow HEAVY_DEPENDENCIES coerceGtZero 0 ast s) ->
      checkLazyImportHeavyDeps HEAVY_DEPENDENCIES coerceGtZero ast filePath l = Normal l).
Proof.
  intros Hwf.
  destruct (check_wf HEAVY_DEPENDENCIES coerceGtZero ast filePath l Hwf) as [l' Hchk].
  destruct (check_diagnostics _ _ _ _ _ _ Hchk) as [tops [-> [Hnd Htops]]].
  split.
  - intros [m [Hm Hs]] Honly.
    assert (Ht : tops = ["webpack"]).
    { apply NoDup_only; [exact Hnd|]. intros x. split.
      - intros Hx. apply Honly. now apply Htops.
      - intros ->. apply Htops. exists m. repeat split; auto. now right. }
    subst tops. rewrite Hchk. repeat split.
  - intros Hnone.
    assert (Ht : tops = []).
    { destruct tops as [|x tops]; [reflexivity|].
      exfalso. apply (Hnone x). apply Htops. now left. }
    subst tops. rewrite Hchk. f_equal. destruct l; simpl. now rewrite app_nil_r.
Qed.

(** The names a sample tree records at depth 0, read off its walk. *)
Lemma sample_tops (ast : value) (tops : list string) (s : string) :
  topLevelImports (final (walkNode HEAVY_DEPENDENCIES Sample.noCoercion ast initialState)) = tops ->
  returns (walkNode HEAVY_DEPENDENCIES Sample.noCoercion ast initialState) ->
  topSiteBelow HEAVY_DEPENDENCIES Sample.noCoercion 0 ast s -> In s tops.
Proof.
  intros Ht Hr Hs. rewrite <- Ht.
  apply (proj2 (walk_top HEAVY_DEPENDENCIES Sample.noCoercion ast initialState Hr s)).
  now right.
Qed.

Lemma require_webpack_diagnostics_witness :
  checkLazyImportHeavyDeps HEAVY_DEPENDENCIES Sample.noCoercion Sample.topAndNested
                           "lib/a.js" newLinter
  = Normal {| errors := [report "lib/a.js" "webpack"]; console := [] |}
  /\ checkLazyImportHeavyDeps HEAVY_DEPENDENCIES Sample.noCoercion Sample.nestedOnly
                              "lib/a.js" newLinter
     = Normal newLinter.
Proof.
  split.
  - refine (proj1 (proj1 (require_webpack_diagnostics Sample.noCoercion Sample.topAndNested
                            "lib/a.js" newLinter eq_refl) _ _)).
    + exists (Sample.requireCall "webpack"). split; [|apply requireCall_site].
      apply (reach_below _ _ (Sample.constDecl "webpack" (Sample.requireCall "webpack")));
        [reflexivity | simpl; auto |].
      eapply reach_below; [reflexivity | simpl; left; reflexivity |].
      apply (reach_below _ _ (Sample.requireCall "webpack"));
        [reflexivity | simpl; auto |].
      apply reach_here. reflexivity.
    + intros s Hs.
      assert (Hin : In s ["webpack"]).
      { apply (sample_tops Sample.topAndNested); [reflexivity | exact I | exact Hs]. }
      destruct Hin as [<- | []]. reflexivity.
  - refine (proj2 (require_webpack_diagnostics Sample.noCoercion Sample.nestedOnly
                     "lib/a.js" newLinter eq_refl) _).
    intros s Hs.
    apply (sample_tops Sample.nestedOnly [] s); [reflexivity | exact I | exact Hs].
Defined.

(** The wording of C1 fails on files with a second heavy name at depth 0:
    with [require('webpack')] and [require('lodash')] both at top level the
    check adds two diagnostics, and with [require('webpack')] only inside
    a function and [require('lodash')] at top level it adds one, not none. *)
Lemma require_webpack_not_alone :
  (exists m, reach 0 Sample.webpackAndLodash 0 m /\
             requireSite Sample.noCoercion m "webpack")
  /\ checkLazyImportHeavyDeps HEAVY_DEPENDENCIES Sample.noCoercion Sample.webpackAndLodash
                              "lib/a.js" newLinter
     = Normal {| errors := [report "lib/a.js" "webpack"; report "lib/a.js" "lodash"];
                 console := [] |}
  /\ (exists m, reach 0 Sample.nestedWebpackTopLodash 1 m /\
                requireSite Sample.noCoercion m "webpack")
  /\ (forall m, reach 0 Sample.nestedWebpackTopLodash 0 m ->
                ~ requireSite Sample.noCoercion m "webpack")
  /\ checkLazyImportHeavyDeps HEAVY_DEPENDENCIES Sample.noCoercion
                              Sample.nestedWebpackTopLodash "lib/a.js" newLinter
     = Normal {| errors := [report "lib/a.js" "lodash"]; console := [] |}.
Proof.
  split; [|split; [reflexivity | split; [|split; [|reflexivity]]]].
  - exists (Sample.requireCall "webpack"). split; [|apply requireCall_site].
    apply (reach_below _ _ (Sample.constDecl "webpack" (Sample.requireCall "webpack")));
      [reflexivity | simpl; auto |].
    eapply reach_below; [reflexivity | simpl; left; reflexivity |].
    apply (reach_below _ _ (Sample.requireCall "webpack"));
      [reflexivity | simpl; auto |].
    apply reach_here. reflexivity.
  - exists (Sample.requireCall "webpack"). split; [|apply requireCall_site].
    eapply reach_below; [reflexivity | simpl; left; reflexivity |].
    eapply reach_below; [reflexivity | simpl; right; left; reflexivity |].
    eapply reach_below; [reflexivity | simpl; left; reflexivity |].
    eapply reach_below; [reflexivity | simpl; left; reflexivity |].
    apply (reach_below _ _ (Sample.requireCall "webpack"));
      [reflexivity | simpl; auto |].
    apply reach_here. reflexivity.
  - intros m Hm Hs.
    assert (Hin : In "webpack" ["lodash"]).
    { apply (sample_tops Sample.nestedWebpackTopLodash); [reflexivity | exact I |].
      exists m. split; [exact Hm|]. split; [now right | reflexivity]. }
    destruct Hin as [H | []]. discriminate H.
Qed.

(** ** Empty heavy-dependency list *)

Lemma fold_left_preserves {A B} (P : A -> Prop) (f : A -> B -> A) (xs : list B) (a : A) :
  (forall a x, P a -> P (f a x)) -> P a -> P (fold_left f xs a).
Proof.
  intros Hf. revert a. induction xs as [|x xs IH]; intros a Ha; simpl; auto.
Qed.

Section EmptyList.

Variable coerceGtZero : value -> option bool.
Variable parse : parseOptions -> string -> completion value.
Variable readFileSync : string -> completion string.
Variable findJSFiles : string -> list string.

Lemma check_empty (ast : value) (filePath : string) (l l' : linter) :
  checkLazyImportHeavyDeps [] coerceGtZero ast filePath l = Normal l' -> l' = l.
Proof.
  intros Hchk.
  destruct (check_diagnostics _ _ _ _ _ _ Hchk) as [tops [-> [_ Htops]]].
  destruct tops as [|x tops].
  - destruct l; simpl. now rewrite app_nil_r.
  - exfalso. destruct (proj1 (Htops x) (or_introl eq_refl)) as [m [_ [_ Hh]]].
    discriminate Hh.
Qed.

Lemma parseAndCheck_empty (opts : parseOptions) (filePath content : string) (l l' : linter) :
  parseAndCheck [] coerceGtZero parse opts filePath content l = Normal l' -> l' = l.
Proof.
  unfold parseAndCheck. destruct (parse opts content); [apply check_empty | discriminate].
Qed.

Lemma lint_empty (filePath content : string) (l : linter) :
  errors (lint [] coerceGtZero parse filePath content l) = errors l.
Proof.
  unfold lint.
  destruct (parseAndCheck [] coerceGtZero parse moduleOptions filePath content l) eqn:H1.
  - now rewrite (parseAndCheck_empty _ _ _ _ _ H1).
  - destruct (parseAndCheck [] coerceGtZero parse scriptOptions filePath content l) eqn:H2.
    + now rewrite (parseAndCheck_empty _ _ _ _ _ H2).
    + reflexivity.
Qed.

(** C8: over an empty list no name is heavy, so linting a file adds no
    diagnostic whatever the file imports, and a whole batch reports zero. *)
Theorem empty_heavy_set_no_diagnostics :
  (forall s, isHeavy [] s = false)
  /\ (forall filePath content l,
         errors (lint [] coerceGtZero parse filePath content l) = errors l)
  /\ (forall patterns,
         lintFiles [] coerceGtZero parse readFileSync findJSFiles patterns = 0).
Proof.
  split; [reflexivity|]. split; [exact lint_empty|].
  intros patterns. unfold lintFiles, lintBatch.
  assert (H : errors (fold_left
                        (fun l pattern =>
                           fold_left (lintFile [] coerceGtZero parse readFileSync)
                                     (findJSFiles pattern) l)
                        patterns newLinter) = []).
  { apply (fold_left_preserves (fun l => errors l = [])); [|reflexivity].
    intros l pattern Hl.
    apply (fold_left_preserves (fun l => errors l = [])); [|exact Hl].
    intros l0 f Hl0. unfold lintFile.
    destruct (readFileSync f); [now rewrite lint_empty | exact Hl0]. }
  now rewrite H.
Qed.

End EmptyList.

(** ** Termination *)

Lemma height_elem (es : list value) (c : value) :
  In c es -> (height c <= fold_right (fun e n => Nat.max (height e) n) 0 es)%nat.
Proof.
  induction es as [|e es IH]; simpl; [intros [] | intros [-> | H]].
  - lia.
  - apply IH in H. lia.
Qed.

Lemma height_childTargets (child c : value) :
  In c (childTargets child) -> (height c <= height child)%nat.
Proof.
  destruct child; simpl; try (intros []).
  - intros H. apply filter_In in H. destruct H as [H _].
    apply height_elem in H. lia.
  - destruct (hasType (VObj fields)); simpl; [intros [<- | []]; simpl; lia | intros []].
Qed.

Lemma height_walkTargets (node c : value) :
  In c (walkTargets node) -> (height c < height node)%nat.
Proof.
  destruct node; simpl; try (intros []).
  - induction elems as [|e es IH]; simpl; [intros []|].
    rewrite in_app_iff. intros [H | H].
    + apply height_childTargets in H. lia.
    + apply IH in H. lia.
  - induction fields as [|[k e] fs IH]; simpl; [intros []|].
    rewrite in_app_iff. intros [H | H].
    + apply height_childTargets in H. lia.
    + apply IH in H. lia.
Qed.

Lemma height_size (v : value) : (height v <= size v)%nat.
Proof.
  assert (Hsub : forall n w, (size w < n)%nat -> (height w <= size w)%nat).
  { induction n as [|n IHn]; intros w Hn; [lia|].
    destruct w; simpl; try lia.
    - apply le_n_S. simpl in Hn.
      induction elems as [|e es IHes]; simpl in *; [lia|].
      assert (height e <= size e)%nat by (apply IHn; lia).
      assert (fold_right (fun e n => Nat.max (height e) n) 0 es
              <= fold_right (fun e n => size e + n) 0 es)%nat by (apply IHes; lia).
      lia.
    - apply le_n_S. simpl in Hn.
      induction fields as [|[k e] fs IHfs]; simpl in *; [lia|].
      assert (height e <= size e)%nat by (apply IHn; lia).
      assert (fold_right (fun kv n => Nat.max (height (snd kv)) n) 0 fs
              <= fold_right (fun kv n => size (snd kv) + n) 0 fs)%nat by (apply IHfs; lia).
      lia. }
  apply (Hsub (S (size v))). lia.
Qed.

Lemma walkListWithin_eq (walk : value -> walk_state -> option (res unit))
      (w : value -> M unit) (ts : list value) :
  (forall c, In c ts -> forall st, walk c st = Some (w c st)) ->
  forall st, walkListWithin walk ts st = Some (walkList w ts st).
Proof.
  induction ts as [|t ts IH]; intros Hts st; simpl; [reflexivity|].
  rewrite (Hts t (or_introl eq_refl) st). unfold bind.
  destruct (w t st) as [a st1|st1]; [|reflexivity].
  apply IH. intros c Hc. apply Hts. now right.
Qed.

(** With room for as many nested calls as the tree is high, the walk on
    the call stack is the walk. *)
Lemma walkNodeWithin_eq (heavy : list string) (coerceGtZero : value -> option bool)
      (frames : nat) :
  forall node st,
    (height node <= frames)%nat ->
    walkNodeWithin heavy coerceGtZero frames node st =
    Some (walkNode heavy coerceGtZero node st).
Proof.
  induction frames as [|below IH]; intros node st Hh.
  - destruct node; simpl in Hh; lia.
  - simpl. rewrite walkNode_eq.
    destruct (isObject node); simpl; [|reflexivity].
    unfold bind.
    destruct (classify heavy coerceGtZero node st) as [a st1|st1]; [|reflexivity].
    destruct (when (isFunctionNode node) incrDepth st1) as [a2 st2|st2]; [|reflexivity].
    rewrite (walkListWithin_eq _ (walkNode heavy coerceGtZero)).
    + destruct (walkList (walkNode heavy coerceGtZero) (walkTargets node) st2);
        reflexivity.
    + intros c Hc st'. apply IH. apply height_walkTargets in Hc. lia.
Qed.

(** C10, as the program has it: [walkNode] calls itself only on values
    strictly inside the node it was given, smaller and less high, and its
    calls nest no deeper than the tree is high; on a call stack with that
    many frames the walk ends, [checkLazyImportHeavyDeps] ending with a
    linter or a TypeError, and with a linter on every tree of the parser's
    shape. *)
Theorem walkNode_terminates (heavy : list string) (coerceGtZero : value -> option bool)
        (ast : value) (frames : nat) (filePath : string) (l : linter) :
  (height ast <= frames)%nat ->
  (forall c, In c (walkTargets ast) ->
             (size c < size ast)%nat /\ (height c < height ast)%nat)
  /\ (height ast <= size ast)%nat
  /\ (forall st, walkNodeWithin heavy coerceGtZero frames ast st =
                 Some (walkNode heavy coerceGtZero ast st))
  /\ checkWithin heavy coerceGtZero frames ast filePath l =
     Some (checkLazyImportHeavyDeps heavy coerceGtZero ast filePath l)
  /\ (checkWithin heavy coerceGtZero frames ast filePath l = Some (Throw TypeError) \/
      exists l', checkWithin heavy coerceGtZero frames ast filePath l = Some (Normal l'))
  /\ (wellFormed ast = true ->
      exists l', checkWithin heavy coerceGtZero frames ast filePath l = Some (Normal l')).
Proof.
  intros Hh.
  assert (Hw : forall st, walkNodeWithin heavy coerceGtZero frames ast st =
                          Some (walkNode heavy coerceGtZero ast st)).
  { intros st. now apply walkNodeWithin_eq. }
  assert (Hc : checkWithin heavy coerceGtZero frames ast filePath l =
               Some (checkLazyImportHeavyDeps heavy coerceGtZero ast filePath l)).
  { unfold checkWithin, checkLazyImportHeavyDeps. rewrite Hw.
    destruct (walkNode heavy coerceGtZero ast initialState); reflexivity. }
  split; [|split; [apply height_size | split; [exact Hw | split; [exact Hc | split]]]].
  - intros c Hin. split; [now apply size_walkTargets | now apply height_walkTargets].
  - rewrite Hc. unfold checkLazyImportHeavyDeps.
    destruct (walkNode heavy coerceGtZero ast initialState); eauto.
  - intros Hwf. destruct (check_wf heavy coerceGtZero ast filePath l Hwf) as [l' Hl].
    exists l'. now rewrite Hc, Hl.
Qed.

(** The sample file with a nested function, on a stack of sixteen frames. *)
Lemma walkNode_terminates_witness :
  exists l',
    checkWithin HEAVY_DEPENDENCIES Sample.noCoercion 16 Sample.topAndNested
                "lib/a.js" newLinter = Some (Normal l').
Proof.
  refine (proj2 (proj2 (proj2 (proj2 (proj2
    (walkNode_terminates HEAVY_DEPENDENCIES Sample.noCoercion Sample.topAndNested 16
       "lib/a.js" newLinter _))))) eq_refl).
  vm_compute. lia.
Defined.

(** With too few frames the same walk runs out of stack. *)
Lemma walk_needs_frames :
  checkWithin HEAVY_DEPENDENCIES Sample.noCoercion 3 Sample.topAndNested
              "lib/a.js" newLinter = None.
Proof. reflexivity. Qed.

(** The wording of C10 fails on a finite tree that lacks a field the walk
    reads: for a call node without [callee] the walk ends by throwing a
    TypeError, on the stack or off it, and [checkLazyImportHeavyDeps] does
    not return. *)
Lemma walk_of_calleeless_call_throws :
  checkLazyImportHeavyDeps HEAVY_DEPENDENCIES Sample.noCoercion calleelessCall
                           "lib/a.js" newLinter = Throw TypeError
  /\ checkWithin HEAVY_DEPENDENCIES Sample.noCoercion 16 calleelessCall
                 "lib/a.js" newLinter = Some (Throw TypeError)
  /\ ~ exists l', checkLazyImportHeavyDeps HEAVY_DEPENDENCIES Sample.noCoercion
                                           calleelessCall "lib/a.js" newLinter = Normal l'.
Proof.
  split; [reflexivity|]. split; [reflexivity|].
  intros [l' H]. discriminate H.
Qed.

(** ** Batches *)

Section Batch.

Variable heavy : list string.
Variable coerceGtZero : value -> option bool.
Variable parse : parseOptions -> string -> completion value.
Variable readFileSync : string -> completion string.

Local Abbreviation lintFile' := (lintFile heavy coerceGtZero parse readFileSync).
Local Abbreviation fileDiagnostics' := (fileDiagnostics heavy coerceGtZero parse readFileSync).

Lemma parseAndCheck_frame (opts : parseOptions) (filePath content : string) (l : linter) :
  parseAndCheck heavy coerceGtZero parse opts filePath content l =
  match parseAndCheck heavy coerceGtZero parse opts filePath content newLinter with
  | Normal l0 => Normal {| errors := errors l ++ errors l0; console := console l |}
  | Throw e => Throw e
  end.
Proof.
  unfold parseAndCheck, checkLazyImportHeavyDeps.
  destruct (parse opts content); [|reflexivity].
  destruct (walkNode heavy coerceGtZero a initialState); reflexivity.
Qed.

Lemma lint_errors (filePath content : string) (l : linter) :
  errors (lint heavy coerceGtZero parse filePath content l) =
  (errors l ++ errors (lint heavy coerceGtZero parse filePath content newLinter))%list.
Proof.
  unfold lint.
  rewrite (parseAndCheck_frame moduleOptions filePath content l).
  destruct (parseAndCheck heavy coerceGtZero parse moduleOptions filePath content newLinter);
    [reflexivity|].
  rewrite (parseAndCheck_frame scriptOptions filePath content l).
  destruct (parseAndCheck heavy coerceGtZero parse scriptOptions filePath content newLinter);
    simpl; [reflexivity | now rewrite app_nil_r].
Qed.

Lemma lintFile_errors (l : linter) (f : string) :
  errors (lintFile' l f) = (errors l ++ fileDiagnostics' f)%list.
Proof.
  unfold fileDiagnostics, lintFile.
  destruct (readFileSync f); simpl; [apply lint_errors | now rewrite app_nil_r].
Qed.

Lemma batch_errors (fs : list string) (l : linter) :
  errors (fold_left lintFile' fs l) = (errors l ++ flat_map fileDiagnostics' fs)%list.
Proof.
  revert l. induction fs as [|f fs IH]; intros l; simpl.
  - now rewrite app_nil_r.
  - now rewrite IH, lintFile_errors, <- app_assoc.
Qed.

Lemma lintFile_console (l : linter) (f : string) (w : warning) :
  In w (console l) -> In w (console (lintFile' l f)).
Proof.
  intros Hw. unfold lintFile, lint.
  destruct (readFileSync f) as [content|e]; [|simpl; apply in_app_iff; now left].
  rewrite (parseAndCheck_frame moduleOptions f content l).
  destruct (parseAndCheck heavy coerceGtZero parse moduleOptions f content newLinter);
    [exact Hw|].
  rewrite (parseAndCheck_frame scriptOptions f content l).
  destruct (parseAndCheck heavy coerceGtZero parse scriptOptions f content newLinter);
    [exact Hw | simpl; apply in_app_iff; now left].
Qed.

Lemma batch_console (fs : list string) (l : linter) (w : warning) :
  In w (console l) -> In w (console (fold_left lintFile' fs l)).
Proof.
  revert l. induction fs as [|f fs IH]; intros l Hw; simpl; [exact Hw|].
  apply IH. now apply lintFile_console.
Qed.



End Batch.


(** ** The two parse attempts *)

Section Attempts.

Variable heavy : list string.
Variable coerceGtZero : value -> option bool.
Variable parse : parseOptions -> string -> completion value.

(** When the module attempt goes through, its result is the result of
    [lint]; the script attempt is not consulted. *)
Lemma lint_module_attempt (filePath content : string) (l l' : linter) :
  parseAndCheck heavy coerceGtZero parse moduleOptions filePath content l = Normal l' ->
  lint heavy coerceGtZero parse filePath content l = l'.
Proof. unfold lint. now intros ->. Qed.

(** When the module attempt throws, the script attempt decides. *)
Lemma lint_script_attempt (filePath content : string) (l l' : linter) (e : exn) :
  parseAndCheck heavy coerceGtZero parse moduleOptions filePath content l = Throw e ->
  parseAndCheck heavy coerceGtZero parse scriptOptions filePath content l = Normal l' ->
  lint heavy coerceGtZero parse filePath content l = l'.
Proof. unfold lint. now intros -> ->. Qed.

(** Both attempts ask the parser to accept [return] outside functions. *)
Lemma attempts_allow_return :
  allowReturnOutsideFunction moduleOptions = true /\
  allowReturnOutsideFunction scriptOptions = true.
Proof. split; reflexivity. Qed.

End Attempts.

(** * Further properties of the program *)

(** ** The matcher *)

Lemma isHeavy_iff (s : string) (H : list string) :
  isHeavy H s = true <->
  In s H \/ exists d, In d H /\ matchesDep s d = true.
Proof.
  unfold isHeavy. destruct (includes H s) eqn:E.
  - split; [intros _; left; now apply includes_iff | reflexivity].
  - rewrite existsb_exists. split; [auto|].
    intros [Hin | Hd]; [|exact Hd].
    apply includes_iff in Hin. congruence.
Qed.

Lemma matchesDep_subpath (s d rest : string) :
  matchesDep s d = true -> matchesDep (s ++ "/" ++ rest) d = true.
Proof.
  rewrite !matchesDep_iff. intros [[r ->] | [r ->]]; [left | right];
    exists (r ++ "/" ++ rest); simpl; now rewrite !append_assoc_str.
Qed.

(** A sub-path of a heavy specifier is heavy: [isHeavyDependency] accepts
    [s/rest] whenever it accepts [s]. *)
Theorem isHeavy_subpath (H : list string) (s rest : string) :
  isHeavy H s = true -> isHeavy H (s ++ "/" ++ rest) = true.
Proof.
  rewrite !isHeavy_iff. intros [Hin | [d [Hd Hm]]]; right.
  - exists s. split; [exact Hin|]. apply matchesDep_iff. left. now exists rest.
  - exists d. split; [exact Hd | now apply matchesDep_subpath].
Qed.

Lemma isHeavy_subpath_witness : isHeavy HEAVY_DEPENDENCIES ("lodash/fp" ++ "/" ++ "map") = true.
Proof. apply (isHeavy_subpath HEAVY_DEPENDENCIES "lodash/fp" "map"). reflexivity. Defined.

(** Extending the list of heavy names never makes a heavy specifier light. *)
Theorem isHeavy_monotone (H H' : list string) (s : string) :
  incl H H' -> isHeavy H s = true -> isHeavy H' s = true.
Proof.
  intros Hincl. rewrite !isHeavy_iff.
  intros [Hin | [d [Hd Hm]]]; [left | right; exists d]; auto.
Qed.

Lemma isHeavy_monotone_witness :
  isHeavy (HEAVY_DEPENDENCIES ++ ["custom-heavy-lib"]) "react/jsx-runtime" = true.
Proof.
  apply (isHeavy_monotone HEAVY_DEPENDENCIES (HEAVY_DEPENDENCIES ++ ["custom-heavy-lib"])).
  - apply incl_appl, incl_refl.
  - reflexivity.
Defined.

(** With the built-in list, a relative or absolute path is never heavy:
    a local file named after a heavy package ([./lodash], [../webpack/x],
    [/opt/react]) is not flagged. *)
Theorem path_specifier_not_heavy (s : string) :
  startsWith s "." = true \/ startsWith s "/" = true ->
  isHeavy HEAVY_DEPENDENCIES s = false.
Proof.
  intros Hs. destruct (isHeavy HEAVY_DEPENDENCIES s) eqn:E; [exfalso|reflexivity].
  apply isHeavy_iff in E.
  assert (Hc : exists c r, s = String c r /\ (c = "."%char \/ c = "/"%char)).
  { destruct Hs as [Hs | Hs]; apply startsWith_iff in Hs; destruct Hs as [r ->];
      simpl; eauto. }
  destruct Hc as [c [r [-> Hc]]].
  destruct E as [Hin | [d [Hd Hm]]].
  - simpl in Hin.
    repeat (destruct Hin as [Hin | Hin];
            [inversion Hin; subst; destruct Hc; discriminate|]).
    exact Hin.
  - apply matchesDep_iff in Hm. simpl in Hd.
    repeat (destruct Hd as [Hd | Hd];
            [subst d; destruct Hm as [[x Hx] | [x Hx]]; simpl in Hx;
             inversion Hx; subst; destruct Hc; discriminate|]).
    exact Hd.
Qed.

Lemma path_specifier_not_heavy_witness : isHeavy HEAVY_DEPENDENCIES "./lodash" = false.
Proof. apply path_specifier_not_heavy. left. reflexivity. Defined.

(** ** What a visit records, and what it passes over *)

Lemma setAdd_idem (s : string) (l : list string) : setAdd s (setAdd s l) = setAdd s l.
Proof.
  unfold setAdd at 2. destruct (includes l s) eqn:E.
  - unfold setAdd. now rewrite E.
  - unfold setAdd.
    assert (Hin : includes (l ++ [s]) s = true).
    { apply includes_iff, in_app_iff. right. now left. }
    now rewrite Hin, E.
Qed.

Lemma getProp_other (v : value) (k k' : string) (a : value) :
  getProp v k = Some a -> exists b, getProp v k' = Some b.
Proof.
  destruct v; simpl; try discriminate; intros _; eauto.
  - destruct (String.eqb k' "length"); [eauto|]. destruct (String.eqb k' "0"); eauto.
  - destruct (String.eqb k' "length"); [eauto|]. destruct (String.eqb k' "0"); eauto.
Qed.

Section Visits.

Variable heavy : list string.
Variable coerceGtZero : value -> option bool.

(** A static import met below depth 0 is passed over entirely: nothing is
    recorded, not even as lazy, and its [source] is not looked at. *)
Theorem static_import_below_top_ignored (node : value) (st : walk_state) :
  getProp node "type" = Some (VStr "ImportDeclaration") ->
  currentDepth st <> 0 ->
  classify heavy coerceGtZero node st = Val tt st.
Proof.
  intros Hty Hd. apply Z.eqb_neq in Hd.
  rewrite classify_unfold. unfold visitImportDeclaration.
  rewrite bind_eval, Hty, bind_get, Hd. simpl.
  rewrite visitCallExpression_unfold, Hty. reflexivity.
Qed.

(** A [require] of a literal [s] met inside a function leaves
    [topLevelImports] alone and, when [s] is heavy, puts [s] in
    [lazyImports]. *)
Theorem require_inside_function_is_lazy (node : value) (s : string) (st : walk_state) :
  requireSite coerceGtZero node s ->
  currentDepth st <> 0 ->
  classify heavy coerceGtZero node st =
    Val tt (if isHeavy heavy s
            then mkState (currentDepth st) (topLevelImports st)
                         (setAdd s (lazyImports st)) (depthLog st)
            else st).
Proof.
  intros [[args [len [arg Hc]]] [callee [Hcallee Hname]]] Hd.
  destruct Hc as (Hty & Hargs & Hlen & Hpos & Harg & Haty & Hval).
  apply Z.eqb_neq in Hd.
  destruct (getProp_other callee "name" "type" _ Hname) as [cty Hcty].
  rewrite classify_unfold.
  assert (Himp : visitImportDeclaration heavy node st = Val tt st).
  { unfold visitImportDeclaration. run. reflexivity. }
  rewrite Himp, visitCallExpression_unfold. run.
  assert (Hreq : visitRequire heavy coerceGtZero node st =
                 if isHeavy heavy s then addLazy s st else Val tt st).
  { unfold visitRequire. run. destruct (isHeavy heavy s); reflexivity. }
  rewrite Hreq.
  destruct (isHeavy heavy s) eqn:Hh; unfold addLazy, visitDynamicImport; run;
    destruct (strictEqStr cty "Import"); run; try reflexivity.
  unfold addLazy. simpl. now rewrite setAdd_idem.
Qed.

(** A call whose first argument is not a string literal (an identifier, a
    template, a number) is passed over, whatever the callee; nothing is
    recorded and nothing is thrown. *)
Theorem computed_argument_ignored (node : value) (callee : list (string * value))
        (arg : list (string * value)) (rest : list value) (st : walk_state) :
  getProp node "type" = Some (VStr "CallExpression") ->
  getProp node "callee" = Some (VObj callee) ->
  getProp node "arguments" = Some (VArr (VObj arg :: rest)) ->
  strictEqStr (lookup "type" arg) "Literal" && isString (lookup "value" arg) = false ->
  classify heavy coerceGtZero node st = Val tt st.
Proof.
  intros Hty Hcallee Hargs Harg.
  rewrite classify_unfold.
  assert (Himp : visitImportDeclaration heavy node st = Val tt st).
  { unfold visitImportDeclaration. run. reflexivity. }
  rewrite Himp, visitCallExpression_unfold. run.
  assert (Hreq : visitRequire heavy coerceGtZero node st = Val tt st).
  { unfold visitRequire. run. simpl getProp. run.
    destruct (strictEqStr (lookup "name" callee) "require"); [|reflexivity].
    run. simpl getProp. run. simpl gtZero. cbn [Z.ltb Z.compare]. run. simpl getProp. run.
    destruct (strictEqStr (lookup "type" arg) "Literal"); [|reflexivity].
    simpl in Harg. run. simpl getProp. run. reflexivity. }
  rewrite Hreq.
  unfold visitDynamicImport. run. simpl getProp. run.
  destruct (strictEqStr (lookup "type" callee) "Import"); [|reflexivity].
  run. simpl getProp. run. simpl gtZero. cbn [Z.ltb Z.compare]. run. simpl getProp. run.
  destruct (strictEqStr (lookup "type" arg) "Literal"); [|reflexivity].
  simpl in Harg. run. simpl getProp. run. reflexivity.
Qed.

(** A call without arguments, [require()] included, is passed over. *)
Theorem call_without_arguments_ignored (node : value) (callee : list (string * value))
        (st : walk_state) :
  getProp node "type" = Some (VStr "CallExpression") ->
  getProp node "callee" = Some (VObj callee) ->
  getProp node "arguments" = Some (VArr []) ->
  classify heavy coerceGtZero node st = Val tt st.
Proof.
  intros Hty Hcallee Hargs.
  rewrite classify_unfold.
  assert (Himp : visitImportDeclaration heavy node st = Val tt st).
  { unfold visitImportDeclaration. run. reflexivity. }
  rewrite Himp, visitCallExpression_unfold. run.
  assert (Hreq : visitRequire heavy coerceGtZero node st = Val tt st).
  { unfold visitRequire. run. simpl getProp. run.
    destruct (strictEqStr (lookup "name" callee) "require"); [|reflexivity].
    run. simpl getProp. run. simpl gtZero. cbn [Z.ltb Z.compare]. run. reflexivity. }
  rewrite Hreq.
  unfold visitDynamicImport. run. simpl getProp. run.
  destruct (strictEqStr (lookup "type" callee) "Import"); [|reflexivity].
  run. simpl getProp. run. simpl gtZero. cbn [Z.ltb Z.compare]. run. reflexivity.
Qed.

End Visits.

Lemma static_import_below_top_ignored_witness :
  classify HEAVY_DEPENDENCIES Sample.noCoercion (Sample.ImportDeclaration "_" "lodash")
           (mkState 1 [] [] [1; 0])
  = Val tt (mkState 1 [] [] [1; 0]).
Proof.
  apply static_import_below_top_ignored; [reflexivity | discriminate].
Defined.

Lemma require_inside_function_is_lazy_witness :
  classify HEAVY_DEPENDENCIES Sample.noCoercion (Sample.requireCall "lodash")
           (mkState 1 [] [] [1; 0])
  = Val tt (mkState 1 [] ["lodash"] [1; 0]).
Proof.
  apply (require_inside_function_is_lazy HEAVY_DEPENDENCIES Sample.noCoercion
           (Sample.requireCall "lodash") "lodash" (mkState 1 [] [] [1; 0])).
  - apply requireCall_site.
  - discriminate.
Defined.

Lemma computed_argument_ignored_witness :
  classify HEAVY_DEPENDENCIES Sample.noCoercion
           (Sample.CallExpression (Sample.Identifier "require") [Sample.Identifier "name"])
           initialState
  = Val tt initialState.
Proof.
  apply (computed_argument_ignored HEAVY_DEPENDENCIES Sample.noCoercion _
           [("type", VStr "Identifier"); ("name", VStr "require")]
           [("type", VStr "Identifier"); ("name", VStr "name")] []);
    reflexivity.
Defined.

Lemma call_without_arguments_ignored_witness :
  classify HEAVY_DEPENDENCIES Sample.noCoercion
           (Sample.CallExpression (Sample.Identifier "require") []) initialState
  = Val tt initialState.
Proof.
  apply (call_without_arguments_ignored HEAVY_DEPENDENCIES Sample.noCoercion _
           [("type", VStr "Identifier"); ("name", VStr "require")]);
    reflexivity.
Defined.

(** ** The two sets during a walk *)

Lemma extendedBy_refl (l : list string) : extendedBy l l.
Proof. exists []. split; [now rewrite app_nil_r | intros x []]. Qed.

Lemma extendedBy_trans (l l' l'' : list string) :
  extendedBy l l' -> extendedBy l' l'' -> extendedBy l l''.
Proof.
  intros [e1 [-> H1]] [e2 [-> H2]]. exists (e1 ++ e2)%list.
  split; [now rewrite app_assoc|].
  intros x Hx Hl. apply in_app_iff in Hx. destruct Hx as [Hx | Hx].
  - now apply (H1 x).
  - apply (H2 x Hx). apply in_app_iff. now left.
Qed.

Lemma extendedBy_setAdd (s : string) (l : list string) : extendedBy l (setAdd s l).
Proof.
  unfold setAdd. destruct (includes l s) eqn:E; [apply extendedBy_refl|].
  exists [s]. split; [reflexivity|].
  intros x [<- | []] Hin. apply includes_iff in Hin. congruence.
Qed.

Section Sets.

Variable heavy : list string.
Variable coerceGtZero : value -> option bool.

Lemma grownFrom_addTopLevel (st0 st : walk_state) (s : string) :
  grownFrom st0 st -> grownFrom st0 (final (addTopLevel s st)).
Proof.
  intros [Ht Hl]. split; simpl; [|exact Hl].
  eapply extendedBy_trans; [exact Ht | apply extendedBy_setAdd].
Qed.

Lemma grownFrom_addLazy (st0 st : walk_state) (s : string) :
  grownFrom st0 st -> grownFrom st0 (final (addLazy s st)).
Proof.
  intros [Ht Hl]. split; simpl; [exact Ht|].
  eapply extendedBy_trans; [exact Hl | apply extendedBy_setAdd].
Qed.

Lemma classify_grows (st0 : walk_state) (m : value) (st : walk_state) :
  grownFrom st0 st -> grownFrom st0 (final (classify heavy coerceGtZero m st)).
Proof.
  intros H. rewrite classify_unfold.
  assert (Hdyn : forall st1, grownFrom st0 st1 ->
            grownFrom st0 (final (visitDynamicImport heavy coerceGtZero m st1))).
  { intros st1 H1.
    destruct (visitDynamicImport_spec heavy coerceGtZero m st1) as [-> | [-> | [s [_ ->]]]];
      [assumption | assumption | now apply grownFrom_addLazy]. }
  assert (Hcall : forall st1, grownFrom st0 st1 ->
            grownFrom st0 (final (visitCallExpression heavy coerceGtZero m st1))).
  { intros st1 H1. rewrite visitCallExpression_unfold.
    destruct (getProp m "type") as [ty|]; [|assumption].
    destruct (strictEqStr ty "CallExpression"); [|assumption].
    destruct (visitRequire_spec heavy coerceGtZero m st1) as [-> | [-> | [s [_ [_ ->]]]]];
      [assumption | now apply Hdyn |].
    destruct (currentDepth st1 =? 0).
    - pose proof (grownFrom_addTopLevel st0 st1 s H1) as H2.
      unfold addTopLevel in *. now apply Hdyn.
    - pose proof (grownFrom_addLazy st0 st1 s H1) as H2.
      unfold addLazy in *. now apply Hdyn. }
  destruct (visitImportDeclaration_spec heavy m st) as [-> | [-> | [s [_ [_ [_ ->]]]]]];
    [assumption | now apply Hcall |].
  pose proof (grownFrom_addTopLevel st0 st s H) as H2.
  unfold addTopLevel in *. now apply Hcall.
Qed.

Lemma walk_grows (node : value) (st : walk_state) :
  grownFrom st (final (walkNode heavy coerceGtZero node st)).
Proof.
  apply (walk_invariant heavy coerceGtZero (grownFrom st)).
  - intros m st1. apply classify_grows.
  - intros d st1 H. exact H.
  - split; apply extendedBy_refl.
Qed.

(** During a walk both sets only grow, and only at the end, by names they
    did not hold: a name keeps the position of its first recording, so
    the diagnostics of a file come in the order in which the walk first
    meets each name, also when the walk is cut short. *)
Theorem sets_grow_at_the_end (node : value) (st : walk_state) :
  extendedBy (topLevelImports st)
             (topLevelImports (final (walkNode heavy coerceGtZero node st)))
  /\ extendedBy (lazyImports st)
                (lazyImports (final (walkNode heavy coerceGtZero node st))).
Proof. apply walk_grows. Qed.

Lemma reach_depth (d : Z) (node : value) (e : Z) (m : value) :
  reach d node e m -> d <= e.
Proof.
  induction 1 as [|d node c e m _ _ _ IH]; [lia|].
  unfold bump in IH. destruct (isFunctionNode node); lia.
Qed.

(** Nothing inside a function is reported: the walk of a function
    declaration, function expression or arrow function, entered at depth 0
    or deeper, returns with [topLevelImports] as it was. *)
Theorem function_body_never_reported (node : value) (st : walk_state) :
  isFunctionNode node = true ->
  0 <= currentDepth st ->
  returns (walkNode heavy coerceGtZero node st) ->
  topLevelImports (final (walkNode heavy coerceGtZero node st)) = topLevelImports st.
Proof.
  intros Hfn Hd Hr.
  destruct (walk_grows node st) as [[ext [Hext Hfresh]] _].
  destruct ext as [|x ext]; [now rewrite Hext, app_nil_r|].
  exfalso. apply (Hfresh x (or_introl eq_refl)).
  assert (Hin : In x (topLevelImports (final (walkNode heavy coerceGtZero node st)))).
  { rewrite Hext. apply in_app_iff. right. now left. }
  apply (walk_top heavy coerceGtZero node st Hr x) in Hin.
  destruct Hin as [Hin | [m [Hm [Hs _]]]]; [exact Hin|].
  exfalso. apply reach_inv in Hm. destruct Hm as [_ [[_ <-] | [c [_ Hm]]]].
  - unfold isFunctionNode in Hfn.
    destruct Hs as [[src [Hty _]] | [[args [len [arg [Hty _]]]] _]];
      rewrite Hty in Hfn; discriminate.
  - apply reach_depth in Hm. unfold bump in Hm. rewrite Hfn in Hm. lia.
Qed.

End Sets.

Lemma function_body_never_reported_witness :
  topLevelImports
    (final (walkNode HEAVY_DEPENDENCIES Sample.noCoercion
              (Sample.FunctionDeclaration "f"
                 [Sample.constDecl "lodash" (Sample.requireCall "lodash")])
              initialState))
  = [].
Proof.
  apply (function_body_never_reported HEAVY_DEPENDENCIES Sample.noCoercion
           (Sample.FunctionDeclaration "f"
              [Sample.constDecl "lodash" (Sample.requireCall "lodash")])
           initialState).
  - reflexivity.
  - simpl. lia.
  - exact I.
Defined.

(** ** One file, several files *)

Section Lint.

Variable heavy : list string.
Variable coerceGtZero : value -> option bool.
Variable parse : parseOptions -> string -> completion value.
Variable readFileSync : string -> completion string.

Local Abbreviation lint' := (lint heavy coerceGtZero parse).
Local Abbreviation lintFile' := (lintFile heavy coerceGtZero parse readFileSync).
Local Abbreviation fileDiagnostics' := (fileDiagnostics heavy coerceGtZero parse readFileSync).

Lemma lint_shape (filePath content : string) (l : linter) :
  (exists D, lint' filePath content l =
             {| errors := errors l ++ D; console := console l |} /\
             forall l0, lint' filePath content l0 =
                        {| errors := errors l0 ++ D; console := console l0 |})
  \/ (exists e, forall l0, lint' filePath content l0 = warn (UnableToParse filePath e) l0).
Proof.
  unfold lint.
  destruct (parseAndCheck heavy coerceGtZero parse moduleOptions filePath content newLinter)
    as [l1|e1] eqn:H1.
  - left. exists (errors l1).
    split; [|intros l0]; rewrite parseAndCheck_frame, H1; reflexivity.
  - destruct (parseAndCheck heavy coerceGtZero parse scriptOptions filePath content newLinter)
      as [l2|e2] eqn:H2.
    + left. exists (errors l2).
      split; [|intros l0]; rewrite parseAndCheck_frame, H1, parseAndCheck_frame, H2;
        reflexivity.
    + right. exists e2. intros l0.
      rewrite parseAndCheck_frame, H1, parseAndCheck_frame, H2. reflexivity.
Qed.

(** What [lint] adds does not depend on what the linter has accumulated:
    it appends to [errors] the diagnostics it gives after a [reset], keeps
    what was logged, and logs at most one warning, which it does only when
    it adds no diagnostic. *)
Theorem lint_contribution (filePath content : string) (l : linter) :
  errors (lint' filePath content l) =
    (errors l ++ getErrors (lint' filePath content (reset l)))%list
  /\ ((console (lint' filePath content l) = console l)
      \/ (getErrors (lint' filePath content (reset l)) = [] /\
          exists e, console (lint' filePath content l) =
                    (console l ++ [UnableToParse filePath e])%list)).
Proof.
  destruct (lint_shape filePath content l) as [[D [Hl H0]] | [e H0]].
  - rewrite Hl, (H0 (reset l)). simpl. split; [reflexivity | now left].
  - rewrite (H0 l), (H0 (reset l)). simpl. split; [now rewrite app_nil_r|].
    right. split; [reflexivity | now exists e].
Qed.

(** Diagnostics are not deduplicated across calls: linting the same text
    twice with one linter reports everything twice. *)
Theorem lint_twice_reports_twice (filePath content : string) (l : linter) :
  errors (lint' filePath content (lint' filePath content l)) =
    (errors l ++ errors (lint' filePath content newLinter)
              ++ errors (lint' filePath content newLinter))%list.
Proof.
  rewrite (lint_errors heavy coerceGtZero parse filePath content (lint' filePath content l)).
  rewrite (lint_errors heavy coerceGtZero parse filePath content l).
  now rewrite app_assoc.
Qed.

(** A file that cannot be read leaves the diagnostics as they are and
    logs one warning; the files around it contribute what they contribute
    on their own. *)
Theorem unreadable_file_isolated (f : string) (e : exn) :
  readFileSync f = Throw e ->
  forall before after l,
    errors (fold_left lintFile' (before ++ f :: after) l) =
      errors (fold_left lintFile' (before ++ after) l)
    /\ In (UnableToRead f e) (console (fold_left lintFile' (before ++ f :: after) l)).
Proof.
  intros Hread before after l.
  assert (Hf : forall l0, lintFile' l0 f = warn (UnableToRead f e) l0).
  { intros l0. unfold lintFile. now rewrite Hread. }
  assert (Hd : fileDiagnostics' f = []).
  { unfold fileDiagnostics. now rewrite Hf. }
  split.
  - rewrite !batch_errors, !flat_map_app. simpl. now rewrite Hd.
  - rewrite fold_left_app. simpl. apply batch_console. rewrite Hf.
    simpl. apply in_app_iff. right. now left.
Qed.

Variable findFiles : string -> list string.

Lemma lintBatch_errors (patterns : list string) (l : linter) :
  errors (fold_left (fun l pattern => fold_left lintFile' (findFiles pattern) l) patterns l) =
  (errors l ++ flat_map fileDiagnostics' (flat_map findFiles patterns))%list.
Proof.
  revert l. induction patterns as [|p ps IH]; intros l; simpl.
  - now rewrite app_nil_r.
  - rewrite IH, batch_errors, flat_map_app, app_assoc. reflexivity.
Qed.

(** The diagnostics of a batch are those of its files one after another,
    pattern by pattern and file by file, and the number returned is their
    count: a file found through two patterns is linted and counted twice. *)
Theorem batch_is_concatenation (patterns : list string) :
  errors (lintBatch heavy coerceGtZero parse readFileSync findFiles patterns) =
    flat_map fileDiagnostics' (flat_map findFiles patterns)
  /\ lintFiles heavy coerceGtZero parse readFileSync findFiles patterns =
     Z.of_nat (List.length (flat_map fileDiagnostics' (flat_map findFiles patterns))).
Proof.
  assert (H : errors (lintBatch heavy coerceGtZero parse readFileSync findFiles patterns) =
              flat_map fileDiagnostics' (flat_map findFiles patterns)).
  { unfold lintBatch. now rewrite lintBatch_errors. }
  split; [exact H|]. unfold lintFiles. now rewrite H.
Qed.

Lemma lintFile_warnings (l : linter) (f : string) :
  exists W, console (lintFile' l f) = (console l ++ W)%list /\ (List.length W <= 1)%nat.
Proof.
  unfold lintFile. destruct (readFileSync f) as [content|e].
  - destruct (lint_shape f content l) as [[D [Hl _]] | [e H0]].
    + exists []. rewrite Hl. simpl. split; [now rewrite app_nil_r | lia].
    + exists [UnableToParse f e]. rewrite (H0 l). simpl. split; [reflexivity | lia].
  - exists [UnableToRead f e]. simpl. split; [reflexivity | lia].
Qed.

(** A batch logs at most one warning per file it looks at. *)
Theorem warnings_bounded_by_files (patterns : list string) :
  (List.length (console (lintBatch heavy coerceGtZero parse readFileSync findFiles patterns))
   <= List.length (flat_map findFiles patterns))%nat.
Proof.
  unfold lintBatch.
  assert (Hfiles : forall fs l,
             (List.length (console (fold_left lintFile' fs l))
              <= List.length (console l) + List.length fs)%nat).
  { induction fs as [|f fs IH]; intros l; simpl; [lia|].
    specialize (IH (lintFile' l f)).
    destruct (lintFile_warnings l f) as [W [HW Hlen]].
    rewrite HW, length_app in IH. lia. }
  assert (Hpat : forall ps l,
             (List.length (console (fold_left
                 (fun l pattern => fold_left lintFile' (findFiles pattern) l) ps l))
              <= List.length (console l) + List.length (flat_map findFiles ps))%nat).
  { induction ps as [|p ps IH]; intros l; simpl; [lia|].
    specialize (IH (fold_left lintFile' (findFiles p) l)).
    specialize (Hfiles (findFiles p) l). rewrite length_app. lia. }
  apply (Hpat patterns newLinter).
Qed.

End Lint.

Lemma unreadable_file_isolated_witness :
  errors (fold_left (lintFile HEAVY_DEPENDENCIES Sample.noCoercion
                              Sample.sampleParse Sample.sampleRead)
                    (["a.js"] ++ "d.js" :: ["c.js"]) newLinter)
  = errors (fold_left (lintFile HEAVY_DEPENDENCIES Sample.noCoercion
                                Sample.sampleParse Sample.sampleRead)
                      (["a.js"] ++ ["c.js"]) newLinter).
Proof.
  exact (proj1 (unreadable_file_isolated HEAVY_DEPENDENCIES Sample.noCoercion
                  Sample.sampleParse Sample.sampleRead "d.js" (IOError "ENOENT")
                  eq_refl ["a.js"] ["c.js"] newLinter)).
Defined.

(** ** File names *)

Lemma substring_all (t : string) : substring 0 (String.length t) t = t.
Proof. induction t as [|c t IH]; simpl; [reflexivity | now rewrite IH]. Qed.

Lemma substring_skip (pre t : string) (n : nat) :
  substring (String.length pre) n (pre ++ t) = substring 0 n t.
Proof. induction pre as [|c pre IH]; simpl; [reflexivity | exact IH]. Qed.

Lemma substring_split (s : string) (k : nat) :
  (k <= String.length s)%nat ->
  s = substring 0 k s ++ substring k (String.length s - k) s.
Proof.
  revert k. induction s as [|c s IH]; intros k Hk; simpl in *.
  - destruct k; [reflexivity | lia].
  - destruct k as [|k]; simpl.
    + now rewrite substring_all.
    + f_equal. apply IH. lia.
Qed.

Lemma endsWith_iff (s suffix : string) :
  endsWith s suffix = true <-> exists pre, s = pre ++ suffix.
Proof.
  unfold endsWith. rewrite andb_true_iff, Nat.leb_le, String.eqb_eq. split.
  - intros [Hlen Hsub].
    exists (substring 0 (String.length s - String.length suffix) s).
    assert (Hk : (String.length s - String.length suffix <= String.length s)%nat) by lia.
    pose proof (substring_split s _ Hk) as H.
    replace (String.length s - (String.length s - String.length suffix))%nat
      with (String.length suffix) in H by lia.
    rewrite Hsub in H. exact H.
  - intros [pre ->]. rewrite length_append_str. split; [lia|].
    replace (String.length pre + String.length suffix - String.length suffix)%nat
      with (String.length pre) by lia.
    now rewrite substring_skip, substring_all.
Qed.

Lemma isJSName_iff (entry : string) :
  isJSName entry = true <->
  exists base, entry = base ++ ".js" \/ entry = base ++ ".mjs".
Proof.
  unfold isJSName. rewrite orb_true_iff, !endsWith_iff. split.
  - intros [[b H] | [b H]]; exists b; auto.
  - intros [b [H | H]]; [left | right]; now exists b.
Qed.

(** ** File discovery *)

Lemma fsSize_entry (entries : list (string * fsEntry)) (e : string) (c : fsEntry) :
  In (e, c) entries ->
  (fsSize c <= fold_right (fun kv n => fsSize (snd kv) + n) 0 entries)%nat.
Proof.
  induction entries as [|[e' c'] es IH]; simpl; [intros [] | intros [H | H]].
  - inversion H; subst. lia.
  - apply IH in H. lia.
Qed.

Lemma fsEntry_induction (P : fsEntry -> Prop) :
  P File -> P UnreadableDir -> P Special -> P Broken ->
  (forall entries, (forall e c, In (e, c) entries -> P c) -> P (Dir entries)) ->
  forall node, P node.
Proof.
  intros HF HU HS HB HD.
  assert (H : forall n node, (fsSize node < n)%nat -> P node).
  { induction n as [|n IH]; intros node Hn; [lia|].
    destruct node; auto.
    apply HD. intros e c Hin. apply IH.
    apply fsSize_entry in Hin. simpl in Hn. lia. }
  intros node. apply (H (S (fsSize node))). lia.
Qed.

Section Discovery.

Variable join : string -> string -> string.

Local Abbreviation walkDir' := (walkDir join).

Lemma walkDir_cons (dir entry : string) (child : fsEntry)
      (rest : list (string * fsEntry)) (files : list string) :
  walkDir' dir (Dir ((entry, child) :: rest)) files =
  match child with
  | Broken => files
  | Dir _ | UnreadableDir =>
      if isWalkedDir entry
      then walkDir' dir (Dir rest) (walkDir' (join dir entry) child files)
      else walkDir' dir (Dir rest) files
  | File =>
      if isJSName entry
      then walkDir' dir (Dir rest) (files ++ [join dir entry])%list
      else walkDir' dir (Dir rest) files
  | Special => walkDir' dir (Dir rest) files
  end.
Proof. destruct child; reflexivity. Qed.

(** [walkDir] only pushes: what was found before stays in front, and what
    a directory adds does not depend on what was found before. *)
Theorem walkDir_appends (node : fsEntry) :
  forall dir files, walkDir' dir node files = (files ++ walkDir' dir node [])%list.
Proof.
  induction node as [| | | |entries IHc] using fsEntry_induction;
    intros dir files; try (simpl; now rewrite app_nil_r).
  revert files. induction entries as [|[e c] es IH]; intros files.
  - simpl. now rewrite app_nil_r.
  - assert (IHes : forall files,
               walkDir' dir (Dir es) files = (files ++ walkDir' dir (Dir es) [])%list).
    { apply IH. intros e' c' Hin. apply (IHc e'). now right. }
    assert (Hc : forall d files, walkDir' d c files = (files ++ walkDir' d c [])%list).
    { apply (IHc e). now left. }
    rewrite !walkDir_cons.
    destruct c.
    + destruct (isJSName e); [|apply IHes].
      rewrite (IHes (files ++ [join dir e])%list), (IHes ([] ++ [join dir e])%list).
      simpl. now rewrite <- app_assoc.
    + destruct (isWalkedDir e); [|apply IHes].
      rewrite (IHes (walkDir' (join dir e) (Dir entries) files)).
      rewrite (IHes (walkDir' (join dir e) (Dir entries) [])).
      rewrite (Hc (join dir e) files). now rewrite <- app_assoc.
    + destruct (isWalkedDir e); simpl; apply IHes.
    + apply IHes.
    + now rewrite app_nil_r.
Qed.

(** Every path [walkDir] finds is [path.join] of a directory and an entry
    whose name ends in [.js] or [.mjs]. *)
Lemma walkDir_names (node : fsEntry) :
  forall dir files p,
    In p (walkDir' dir node files) ->
    In p files \/ exists d e, p = join d e /\ isJSName e = true.
Proof.
  induction node as [| | | |entries IHc] using fsEntry_induction;
    intros dir files p; try (simpl; now left).
  revert files. induction entries as [|[e c] es IH]; intros files.
  - simpl. now left.
  - assert (IHes : forall files,
               In p (walkDir' dir (Dir es) files) ->
               In p files \/ exists d e, p = join d e /\ isJSName e = true).
    { apply IH. intros e' c' Hin. apply (IHc e'). now right. }
    rewrite walkDir_cons. destruct c.
    + destruct (isJSName e) eqn:Hjs; [|apply IHes].
      intros H. apply IHes in H. destruct H as [H | H]; [|now right].
      apply in_app_iff in H. destruct H as [H | [<- | []]]; [now left|].
      right. now exists dir, e.
    + destruct (isWalkedDir e); [|apply IHes].
      intros H. apply IHes in H. destruct H as [H | H]; [|now right].
      apply (IHc e (Dir entries)) in H; [exact H | now left].
    + destruct (isWalkedDir e); simpl; apply IHes.
    + apply IHes.
    + now left.
Qed.

(** Entries that are passed over do not matter: a hidden directory or
    [node_modules] with whatever it holds, a directory that cannot be
    listed, a file with another extension and a special file can be taken
    out of the listing without changing what is found. *)
Theorem walkDir_passes_over (dir entry : string) (child : fsEntry)
        (before after : list (string * fsEntry)) (files : list string) :
  passedOver entry child = true ->
  walkDir' dir (Dir (before ++ (entry, child) :: after)) files =
  walkDir' dir (Dir (before ++ after)) files.
Proof.
  intros Hp. revert files.
  induction before as [|[e c] es IH]; intros files.
  - simpl app. rewrite walkDir_cons.
    destruct child; simpl in Hp; try discriminate.
    + apply negb_true_iff in Hp. now rewrite Hp.
    + apply negb_true_iff in Hp. now rewrite Hp.
    + destruct (isWalkedDir entry); reflexivity.
    + reflexivity.
  - simpl app. rewrite !walkDir_cons.
    destruct c; try destruct (isJSName e); try destruct (isWalkedDir e);
      try apply IH; reflexivity.
Qed.

(** An entry on which [statSync] throws ends the listing of its
    directory: the entries after it, JavaScript files included, are not
    looked at, and nothing is logged. *)
Theorem walkDir_stops_at_broken (dir entry : string)
        (before after : list (string * fsEntry)) (files : list string) :
  walkDir' dir (Dir (before ++ (entry, Broken) :: after)) files =
  walkDir' dir (Dir before) files.
Proof.
  revert files. induction before as [|[e c] es IH]; intros files.
  - reflexivity.
  - simpl app. rewrite !walkDir_cons.
    destruct c; try destruct (isJSName e); try destruct (isWalkedDir e);
      try apply IH; reflexivity.
Qed.

(** In a directory that holds only files, the files whose names end in
    [.js] or [.mjs] are found in listing order, hidden ones included. *)
Theorem walkDir_flat (dir : string) (entries : list (string * fsEntry)) :
  (forall e c, In (e, c) entries -> c = File) ->
  walkDir' dir (Dir entries) [] = map (join dir) (filter isJSName (map fst entries)).
Proof.
  intros Hall.
  assert (H : forall files,
             walkDir' dir (Dir entries) files =
             (files ++ map (join dir) (filter isJSName (map fst entries)))%list).
  { induction entries as [|[e c] es IH]; intros files.
    - simpl. now rewrite app_nil_r.
    - assert (c = File) by (apply (Hall e); now left). subst c.
      assert (Hrest : forall e' c', In (e', c') es -> c' = File).
      { intros e' c' Hin. apply (Hall e'). now right. }
      rewrite walkDir_cons. cbn [map fst filter].
      destruct (isJSName e); rewrite (IH Hrest); [|reflexivity].
      cbn [map]. now rewrite <- app_assoc. }
  apply (H []).
Qed.

Variable resolve : string -> option fsEntry.

(** Every path [findJSFiles] returns ends in [.js] or [.mjs]: it is the
    pattern itself, or [path.join] of a directory and such a name. *)
Theorem findJSFiles_names (pattern p : string) :
  In p (findJSFiles join resolve pattern) ->
  (p = pattern /\ isJSName pattern = true)
  \/ exists d e base, p = join d e /\ (e = base ++ ".js" \/ e = base ++ ".mjs").
Proof.
  unfold findJSFiles. destruct (resolve pattern) as [[| | | |]|]; try (intros []).
  - destruct (isJSName pattern) eqn:Hjs; [|intros []].
    intros [<- | []]. now left.
  - intros H. apply walkDir_names in H. destruct H as [[] | [d [e [-> Hjs]]]].
    right. apply isJSName_iff in Hjs. destruct Hjs as [base Hb]. now exists d, e, base.
Qed.

End Discovery.

Lemma walkDir_passes_over_witness :
  walkDir SampleFiles.joinPath "lib"
          (Dir ([("a.js", File)] ++ ("node_modules", Dir [("webpack.js", File)])
                  :: [("z.js", File)])) []
  = walkDir SampleFiles.joinPath "lib" (Dir ([("a.js", File)] ++ [("z.js", File)])) [].
Proof.
  apply (walkDir_passes_over SampleFiles.joinPath "lib" "node_modules"
           (Dir [("webpack.js", File)]) [("a.js", File)] [("z.js", File)] []).
  reflexivity.
Defined.

Lemma walkDir_flat_witness :
  walkDir SampleFiles.joinPath "lib"
          (Dir [("a.js", File); (".eslintrc.js", File); ("README.md", File)]) []
  = map (SampleFiles.joinPath "lib")
        (filter isJSName (map fst [("a.js", File); (".eslintrc.js", File);
                                   ("README.md", File)])).
Proof.
  apply (walkDir_flat SampleFiles.joinPath "lib").
  intros e c [H | [H | [H | []]]]; now inversion H.
Defined.

Lemma findJSFiles_names_witness :
  ("lib/internal/b.mjs" = "lib" /\ isJSName "lib" = true)
  \/ exists d e base,
       "lib/internal/b.mjs" = SampleFiles.joinPath d e /\
       (e = base ++ ".js" \/ e = base ++ ".mjs").
Proof.
  apply (findJSFiles_names SampleFiles.joinPath SampleFiles.sampleResolve "lib").
  vm_compute. right; right; left. reflexivity.
Defined.

(** ** The command line *)



Section Cli.

Variable heavy : list string.
Variable coerceGtZero : value -> option bool.
Variable parse : parseOptions -> string -> completion value.
Variable readFileSync : string -> completion string.
Variable join : string -> string -> string.
Variable resolve : string -> option fsEntry.

Local Abbreviation cli' := (cli heavy coerceGtZero parse readFileSync join resolve).
Local Abbreviation find' := (findJSFiles join resolve).
Local Abbreviation fileDiagnostics' := (fileDiagnostics heavy coerceGtZero parse readFileSync).



(** An argument through which no file is found (an option such as
    [--config], a configuration file, a path that does not exist) is
    ignored without notice, as long as another argument remains. *)
Theorem argument_without_files_ignored (before after : list string) (pattern : string) :
  findJSFiles join resolve pattern = [] ->
  (before ++ after)%list <> [] ->
  cli heavy coerceGtZero parse readFileSync join resolve (before ++ pattern :: after) =
  cli heavy coerceGtZero parse readFileSync join resolve (before ++ after).
Proof.
  intros Hnone Hne.
  assert (Hb : lintBatch heavy coerceGtZero parse readFileSync find'
                         (before ++ pattern :: after) =
               lintBatch heavy coerceGtZero parse readFileSync find' (before ++ after)).
  { unfold lintBatch. rewrite !fold_left_app. simpl. now rewrite Hnone. }
  unfold cli, lintFiles. rewrite Hb.
  destruct (before ++ after)%list as [|x xs] eqn:E; [now contradiction Hne|].
  destruct (before ++ pattern :: after)%list as [|y ys] eqn:E';
    [destruct before; discriminate | reflexivity].
Qed.

End Cli.


Lemma argument_without_files_ignored_witness :
  cli HEAVY_DEPENDENCIES Sample.noCoercion Sample.sampleParse Sample.sampleRead
      SampleFiles.joinPath SampleFiles.sampleResolve (["a.js"] ++ "--config" :: ["c.js"])
  = cli HEAVY_DEPENDENCIES Sample.noCoercion Sample.sampleParse Sample.sampleRead
        SampleFiles.joinPath SampleFiles.sampleResolve (["a.js"] ++ ["c.js"]).
Proof.
  apply (argument_without_files_ignored HEAVY_DEPENDENCIES Sample.noCoercion
           Sample.sampleParse Sample.sampleRead SampleFiles.joinPath
           SampleFiles.sampleResolve ["a.js"] ["c.js"] "--config").
  - reflexivity.
  - discriminate.
Defined.

(** ** What a diagnostic can be *)

Section Reports.

Variable heavy : list string.
Variable coerceGtZero : value -> option bool.
Variable parse : parseOptions -> string -> completion value.
Variable readFileSync : string -> completion string.
Variable findFiles : string -> list string.

Local Abbreviation lintFile' := (lintFile heavy coerceGtZero parse readFileSync).

Lemma parseAndCheck_reports (opts : parseOptions) (f content : string) (l l' : linter)
      (d : diagnostic) :
  parseAndCheck heavy coerceGtZero parse opts f content l = Normal l' ->
  In d (errors l') -> In d (errors l) \/ heavyReport heavy f d.
Proof.
  unfold parseAndCheck. destruct (parse opts content) as [ast|e]; [|discriminate].
  intros Hchk Hd.
  destruct (check_diagnostics _ _ _ _ _ _ Hchk) as [tops [-> [_ Htops]]].
  simpl in Hd. apply in_app_iff in Hd. destruct Hd as [Hd | Hd]; [now left|].
  apply in_map_iff in Hd. destruct Hd as [s [<- Hs]].
  right. exists s. split; [reflexivity|].
  apply Htops in Hs. destruct Hs as [m [_ [_ Hh]]]. exact Hh.
Qed.

Lemma lintFile_reports (l : linter) (f : string) (d : diagnostic) :
  In d (errors (lintFile' l f)) -> In d (errors l) \/ heavyReport heavy f d.
Proof.
  unfold lintFile, lint. destruct (readFileSync f) as [content|e]; [|now left].
  destruct (parseAndCheck heavy coerceGtZero parse moduleOptions f content l) eqn:H1.
  - now apply (parseAndCheck_reports moduleOptions f content l).
  - destruct (parseAndCheck heavy coerceGtZero parse scriptOptions f content l) eqn:H2.
    + now apply (parseAndCheck_reports scriptOptions f content l).
    + now left.
Qed.

Lemma batch_reports (fs : list string) (l : linter) (d : diagnostic) :
  In d (errors (fold_left lintFile' fs l)) ->
  In d (errors l) \/ exists f, In f fs /\ heavyReport heavy f d.
Proof.
  revert l. induction fs as [|f fs IH]; intros l; simpl; [now left|].
  intros H. apply IH in H. destruct H as [H | [f' [Hf' H]]].
  - apply lintFile_reports in H. destruct H as [H | H]; [now left|].
    right. exists f. split; [now left | exact H].
  - right. exists f'. split; [now right | exact H].
Qed.

(** Every diagnostic of a batch has the rule [lazy-import-heavy-js-deps]
    and the severity [warning], names a file found through one of the
    patterns, and reports a name that [isHeavyDependency] accepts. *)
Theorem every_diagnostic_is_a_heavy_report (patterns : list string) (d : diagnostic) :
  In d (errors (lintBatch heavy coerceGtZero parse readFileSync findFiles patterns)) ->
  rule d = "lazy-import-heavy-js-deps"
  /\ severity d = "warning"
  /\ (exists pattern, In pattern patterns /\ In (file d) (findFiles pattern))
  /\ heavyReport heavy (file d) d.
Proof.
  unfold lintBatch.
  assert (H : forall ps l,
             In d (errors (fold_left
                     (fun l pattern => fold_left lintFile' (findFiles pattern) l) ps l)) ->
             In d (errors l) \/
             exists pattern f, In pattern ps /\ In f (findFiles pattern) /\ heavyReport heavy f d).
  { induction ps as [|p ps IH]; intros l; simpl; [now left|].
    intros Hd. apply IH in Hd. destruct Hd as [Hd | [p' [f [Hp' [Hf Hr]]]]].
    - apply batch_reports in Hd. destruct Hd as [Hd | [f [Hf Hr]]]; [now left|].
      right. exists p, f. auto.
    - right. exists p', f. auto. }
  intros Hd. apply H in Hd. destruct Hd as [[] | [p [f [Hp [Hf [s [-> Hs]]]]]]].
  simpl. repeat split; eauto.
  exists s. auto.
Qed.

End Reports.

Lemma every_diagnostic_is_a_heavy_report_witness :
  rule (report "a.js" "webpack") = "lazy-import-heavy-js-deps"
  /\ severity (report "a.js" "webpack") = "warning"
  /\ (exists pattern, In pattern ["a.js"; "b.js"; "c.js"] /\
                      In (file (report "a.js" "webpack")) [pattern])
  /\ heavyReport HEAVY_DEPENDENCIES (file (report "a.js" "webpack"))
                 (report "a.js" "webpack").
Proof.
  apply (every_diagnostic_is_a_heavy_report HEAVY_DEPENDENCIES Sample.noCoercion
           Sample.sampleParse Sample.sampleRead (fun p => [p]) ["a.js"; "b.js"; "c.js"]).
  vm_compute. left. reflexivity.
Defined.
